(** * release.py: the platform release script, embedded and verified

    The script walks a fixed, dependency-ordered list of repositories
    and, for each of them, rewrites the version fields of its Helm
    chart and OpenAPI document, commits, waits for the pull request to
    be merged and tags the release.

    The development follows the layout of the script:

    - [Str]      text, as Python sees it: sequences of code points;
    - [Re]       the fragment of Python's [re] the script uses;
    - [Semver]   the [semver.Version] value the script is handed;
    - [Release]  the script itself: [canonical_version], the two
                 patchers, [COMPONENTS], [components_from], [pushd],
                 [validate], [release] and [main];
    - [Lines], [Runs]  the vocabulary of the statements: the lines of a
                 text, the calls of a run and their order;
    - [Sample]   the inputs of the examples.

    The facts and the theorems follow the definitions.

    A character is an [ascii], read as a code point below 256; on that
    range Python's [\s] and [\d] are exactly the classes defined in
    [Str]. *)

From Stdlib Require Import String Ascii List Bool Arith NArith ZArith Lia.
From Stdlib Require Import Decimal DecimalString.
From Stdlib Require DecimalFacts DecimalPos DecimalN.
From Equations Require Import Equations.
From Equations.Prop Require Import Logic.
Import ListNotations.

#[local] Open Scope list_scope.
#[local] Open Scope string_scope.

(* ===================================================================== *)
(** * Text *)
(* ===================================================================== *)

Module Str.

(** The line feed, Python's ['\n']. *)
Definition LF : ascii := "010"%char.

(** The escape character, Python's ['\033']. *)
Definition ESC : ascii := "027"%char.

Definition nl : string := String LF EmptyString.

Definition code (c : ascii) : N := N_of_ascii c.

Definition between (lo hi : N) (c : ascii) : bool :=
  (lo <=? code c)%N && (code c <=? hi)%N.

(** [\d] on code points below 256: the ten ASCII digits. *)
Definition is_digit (c : ascii) : bool := between 48 57 c.

(** [\s] on code points below 256: TAB to CR, FS to US, the space,
    NEL and the no-break space. *)
Definition is_space (c : ascii) : bool :=
  between 9 13 c || between 28 32 c
  || (code c =? 133)%N || (code c =? 160)%N.

(** [[0-9a-zA-Z-]] *)
Definition is_ident_char (c : ascii) : bool :=
  is_digit c || between 97 122 c || between 65 90 c || (code c =? 45)%N.

(** Python's truth value of a string. *)
Definition truthy (s : string) : bool :=
  match s with EmptyString => false | String _ _ => true end.

Fixpoint all (p : ascii -> bool) (s : string) : bool :=
  match s with
  | EmptyString => true
  | String c s' => p c && all p s'
  end.

(** [s] does not start with a character of the class [p]. *)
Definition stops (p : ascii -> bool) (s : string) : Prop :=
  match s with
  | EmptyString => True
  | String c _ => p c = false
  end.

(** [s] holds no line feed. *)
Definition no_lf (s : string) : bool :=
  all (fun c => negb (Ascii.eqb c LF)) s.

(** [''.join(lines)] *)
Fixpoint join (lines : list string) : string :=
  match lines with
  | [] => EmptyString
  | l :: ls => l ++ join ls
  end.

(** [s.startswith(p)] together with the remainder. *)
Fixpoint strip_prefix (p s : string) : option string :=
  match p, s with
  | EmptyString, _ => Some s
  | String a p', String b s' =>
      if Ascii.eqb a b then strip_prefix p' s' else None
  | String _ _, EmptyString => None
  end.

(** The text before the first [c], and the text after it when there is
    one. *)
Fixpoint split_first (c : ascii) (s : string) : string * option string :=
  match s with
  | EmptyString => (EmptyString, None)
  | String a s' =>
      if Ascii.eqb a c then (EmptyString, Some s')
      else let (h, t) := split_first c s' in (String a h, t)
  end.

(** [s.split(c)] *)
Fixpoint split (c : ascii) (s : string) : list string :=
  match s with
  | EmptyString => [EmptyString]
  | String a s' =>
      if Ascii.eqb a c then EmptyString :: split c s'
      else match split c s' with
           | [] => [String a EmptyString]
           | h :: t => String a h :: t
           end
  end.

(** [str(n)] for a non-negative integer. *)
Definition of_N (n : N) : string := NilZero.string_of_uint (N.to_uint n).

(** [int(s)] for a string of ASCII digits. *)
Definition digit_value (c : ascii) : N := (code c - 48)%N.

Fixpoint to_N_acc (acc : N) (s : string) : N :=
  match s with
  | EmptyString => acc
  | String c s' => to_N_acc (10 * acc + digit_value c)%N s'
  end.

Definition to_N (s : string) : N := to_N_acc 0 s.

(** [s.lstrip()], [s.rstrip()] and [s.strip()] *)
Fixpoint lstrip (s : string) : string :=
  match s with
  | EmptyString => EmptyString
  | String c s' => if is_space c then lstrip s' else s
  end.

Fixpoint rstrip (s : string) : string :=
  match s with
  | EmptyString => EmptyString
  | String c s' =>
      match rstrip s' with
      | EmptyString => if is_space c then EmptyString else String c EmptyString
      | String _ _ as r => String c r
      end
  end.

Definition strip (s : string) : string := rstrip (lstrip s).

(** What a text file opened with the default [newline=None] hands to its
    reader: [\r\n] and a lone [\r] both arrive as a line feed. *)
Definition CR : ascii := "013"%char.

Fixpoint universal_newlines (s : string) : string :=
  match s with
  | EmptyString => EmptyString
  | String c s' =>
      if Ascii.eqb c CR then
        match s' with
        | String d s'' =>
            if Ascii.eqb d LF then String LF (universal_newlines s'')
            else String LF (universal_newlines s')
        | EmptyString => String LF EmptyString
        end
      else String c (universal_newlines s')
  end.

End Str.

(* ===================================================================== *)
(** * Regular expressions *)
(* ===================================================================== *)

(** The two patterns of the script are built from literals, the classes
    [\s] and [\d], concatenation, alternation, [+] on a class, a counted
    repetition and capture groups.  [run] is a backtracking matcher in
    continuation-passing style: alternatives are tried left to right and
    [+] is greedy, as in Python. *)

Module Re.

Inductive regex : Type :=
| Lit (s : string)
| Cat (r1 r2 : regex)
| Alt (r1 r2 : regex)
| Plus (p : ascii -> bool)
| Rep (n : nat) (r : regex)
| Group (i : nat) (r : regex).

(** The text captured by each group. *)
Definition groups : Type := nat -> option string.

Definition no_groups : groups := fun _ => None.

Definition set_group (i : nat) (v : string) (g : groups) : groups :=
  fun j => if Nat.eqb j i then Some v else g j.

(** What was read between [s] and its suffix [s']. *)
Definition consumed (s s' : string) : string :=
  substring 0 (String.length s - String.length s') s.

Fixpoint run {R : Type} (r : regex) (s : string) (g : groups)
    (k : string -> groups -> option R) {struct r} : option R :=
  match r with
  | Lit l =>
      match Str.strip_prefix l s with
      | Some s' => k s' g
      | None => None
      end
  | Cat r1 r2 => run r1 s g (fun s' g' => run r2 s' g' k)
  | Alt r1 r2 =>
      match run r1 s g k with
      | Some x => Some x
      | None => run r2 s g k
      end
  | Plus p =>
      (fix more (t : string) : option R :=
         match t with
         | String c t' =>
             if p c then
               match more t' with
               | Some x => Some x
               | None => k t' g
               end
             else None
         | EmptyString => None
         end) s
  | Rep n r' =>
      (fix times (n : nat) (t : string) (h : groups) : option R :=
         match n with
         | O => k t h
         | S n' => run r' t h (fun t' h' => times n' t' h')
         end) n s g
  | Group i r' =>
      run r' s g (fun s' g' => k s' (set_group i (consumed s s') g'))
  end.

(** [re.match(pattern, line)]: the pattern must match at the start of
    the line and need not reach its end. *)
Definition match_ (pattern : regex) (line : string) : option groups :=
  run pattern line no_groups (fun _ g => Some g).

(** [m.group(i)] for a group that took part in the match. *)
Definition group (m : groups) (i : nat) : string :=
  match m i with
  | Some v => v
  | None => EmptyString
  end.

(** The language of a pattern: the texts it can read.  [run] is checked
    against it below. *)
Fixpoint lang (r : regex) (w : string) : Prop :=
  match r with
  | Lit l => w = l
  | Cat r1 r2 => exists u v, w = u ++ v /\ lang r1 u /\ lang r2 v
  | Alt r1 r2 => lang r1 w \/ lang r2 w
  | Plus p => Str.truthy w = true /\ Str.all p w = true
  | Rep n r' =>
      (fix times (n : nat) (w : string) : Prop :=
         match n with
         | O => w = EmptyString
         | S n' => exists u v, w = u ++ v /\ lang r' u /\ times n' v
         end) n w
  | Group _ r' => lang r' w
  end.

End Re.

(* ===================================================================== *)
(** * Semantic versions *)
(* ===================================================================== *)

(** [semver.Version] is a library type.  The script reads its fields
    [major], [minor], [patch] and [prerelease], converts it with [str]
    and builds it with [Version.parse]; these are modelled here after
    the library's grammar of a semantic version. *)

Module Semver.

Record Version : Type := mkVersion {
  major : N;
  minor : N;
  patch : N;
  prerelease : option string;
  build : option string
}.

(** The truth value of an optional field: [None] and the empty string
    are both false. *)
Definition is_set (f : option string) : bool :=
  match f with
  | Some s => Str.truthy s
  | None => false
  end.

Definition text (f : option string) : string :=
  match f with
  | Some s => s
  | None => EmptyString
  end.

(** [str(version)] *)
Definition str (v : Version) : string :=
  Str.of_N (major v) ++ "." ++ Str.of_N (minor v) ++ "." ++ Str.of_N (patch v)
  ++ (if is_set (prerelease v) then "-" ++ text (prerelease v) else EmptyString)
  ++ (if is_set (build v) then "+" ++ text (build v) else EmptyString).

(** [0|[1-9]\d*] *)
Definition numeric_id (s : string) : bool :=
  match s with
  | EmptyString => false
  | String c s' =>
      Str.all Str.is_digit s
      && (negb (Ascii.eqb c "0") || negb (Str.truthy s'))
  end.

(** [0|[1-9]\d*|\d*[a-zA-Z-][0-9a-zA-Z-]*] *)
Definition prerelease_id (s : string) : bool :=
  Str.truthy s && Str.all Str.is_ident_char s
  && (negb (Str.all Str.is_digit s) || numeric_id s).

(** [[0-9a-zA-Z-]+] *)
Definition build_id (s : string) : bool :=
  Str.truthy s && Str.all Str.is_ident_char s.

Definition optional_ids (ok : string -> bool) (f : option string) : bool :=
  match f with
  | Some s => forallb ok (Str.split "." s)
  | None => true
  end.

(** Modelled from the spec: [semver.Version.parse] belongs to the semver
    library, which is not among the sources.  It accepts
    major.minor.patch with an optional prerelease and optional build
    metadata, each a list of dot-separated identifiers; numbers carry
    no leading zero, and nothing may follow the last identifier.
    [None] stands for the [ValueError] the library raises. *)
Definition parse (s : string) : option Version :=
  let (front, bld) := Str.split_first "+" s in
  let (core, pre) := Str.split_first "-" front in
  match Str.split "." core with
  | [a; b; c] =>
      if numeric_id a && numeric_id b && numeric_id c
         && optional_ids prerelease_id pre && optional_ids build_id bld
      then Some (mkVersion (Str.to_N a) (Str.to_N b) (Str.to_N c) pre bld)
      else None
  | _ => None
  end.

(** What every parsed version satisfies: the optional fields, when
    present, are dot-separated identifiers. *)
Definition valid (v : Version) : bool :=
  optional_ids prerelease_id (prerelease v)
  && optional_ids build_id (build v).

End Semver.

(* ===================================================================== *)
(** * The script *)
(* ===================================================================== *)

Module Release.

Import Semver.

(** ** Versions *)

(** [canonical_version(version)]: the form used by tags. *)
Definition canonical_version (version : Version) : string :=
  "v" ++ Str.of_N (major version) ++ "." ++ Str.of_N (minor version)
  ++ "." ++ Str.of_N (patch version)
  ++ (if is_set (prerelease version) then "-" ++ text (prerelease version)
      else EmptyString).

(** ** Text files *)

(** An open text file is the text that has not been read yet. *)
Definition TextIO : Type := string.

(** [file.readline()]: the next line with its line feed, or what is left
    of the file when it has none; the empty string at the end of the
    file. *)
Fixpoint readline (file : TextIO) : string * TextIO :=
  match file with
  | EmptyString => (EmptyString, EmptyString)
  | String c rest =>
      if Ascii.eqb c Str.LF then (Str.nl, rest)
      else let (line, rest') := readline rest in (String c line, rest')
  end.

(** [r'(version|appVersion):'] *)
Definition chart_pattern : Re.regex :=
  Re.Cat (Re.Group 1 (Re.Alt (Re.Lit "version") (Re.Lit "appVersion")))
         (Re.Lit ":").

(** [r'(\s+version):\s+\d+(\.\d+){2}'] *)
Definition openapi_pattern : Re.regex :=
  Re.Cat (Re.Group 1 (Re.Cat (Re.Plus Str.is_space) (Re.Lit "version")))
 (Re.Cat (Re.Lit ":")
 (Re.Cat (Re.Plus Str.is_space)
 (Re.Cat (Re.Plus Str.is_digit)
         (Re.Rep 2 (Re.Group 2 (Re.Cat (Re.Lit ".") (Re.Plus Str.is_digit))))))).

(** The body of the loop of [_update_chart_contents], lines 83 to 85. *)
Definition chart_line (version : Version) (line : string) : string :=
  match Re.match_ chart_pattern line with
  | Some m => Re.group m 1 ++ ": " ++ canonical_version version ++ Str.nl
  | None => line
  end.

(** The body of the loop of [_update_openapi_contents], lines 112 to
    114. *)
Definition openapi_line (version : Version) (line : string) : string :=
  match Re.match_ openapi_pattern line with
  | Some m => Re.group m 1 ++ ": " ++ str version ++ Str.nl
  | None => line
  end.

(** The [while True] loop shared by the two patchers: read a line, stop
    at the end of the file, rewrite the line, append it. *)
Equations? patch_loop (rewrite : string -> string) (file : TextIO)
    (lines : list string) : list string by wf (String.length file) lt :=
  patch_loop rewrite file lines with inspect (readline file) := {
    | exist _ (line, rest) eq_read with inspect (Str.truthy line) := {
        | exist _ false _ := lines;
        | exist _ true eq_line :=
            patch_loop rewrite rest (lines ++ [rewrite line])%list } }.
Proof.
  clear - eq_read eq_line. revert line rest eq_read eq_line.
  induction file as [|c file IH]; simpl; intros line rest.
  - intros [= <- <-]. discriminate.
  - destruct (Ascii.eqb c Str.LF).
    + intros [= <- <-] _. lia.
    + destruct (readline file) as [l r] eqn:E. intros [= <- <-] _.
      destruct l as [|d l].
      * destruct file as [|a file]; simpl in E.
        -- injection E as <-. simpl. lia.
        -- destruct (Ascii.eqb a Str.LF); [discriminate|].
           destruct (readline file); discriminate.
      * specialize (IH _ _ eq_refl eq_refl). lia.
Qed.

(** [Component._update_chart_contents(file, version)] *)
Definition _update_chart_contents (file : TextIO) (version : Version) : string :=
  Str.join (patch_loop (chart_line version) file []).

(** [Component._update_openapi_contents(file, version)] *)
Definition _update_openapi_contents (file : TextIO) (version : Version) : string :=
  Str.join (patch_loop (openapi_line version) file []).


(** ** The outside world *)

(** The file system, by absolute path. *)
Definition Files : Type := string -> option string.

Record World : Type := mkWorld {
  cwd : string;          (* the working directory, [os.getcwd()] *)
  files : Files;
  stdin : list string    (* the lines the operator is still to enter *)
}.

(** What a child process leaves behind. *)
Record Completed : Type := mkCompleted {
  returncode : Z;
  stdout : string;
  after : Files
}.

(** What the script cannot decide: which directories exist, what a glob
    pattern matches (in a directory), what a child process does (in
    a directory, with the given arguments), and which of its two
    options stands first on the command line. *)
Record Env : Type := mkEnv {
  is_dir : Files -> string -> bool;
  matches_of : Files -> string -> string -> list string;
  spawn : Files -> string -> list string -> Completed;
  version_first : bool
}.

(** The calls the script makes, in the order it makes them. *)
Inductive event : Type :=
| Print (text : string)
| Chdir (directory : string)
| Glob (dir pattern : string)
| CheckOutput (dir : string) (args : list string)
| CheckCall (dir : string) (args : list string)
| Read (path : string)
| Write (path contents : string)
| Input (prompt : string).

Inductive exn : Type :=
| RuntimeError (msg : string)
| CalledProcessError (args : list string)
| OSError (path : string)
| EOFError
| IndexError
| ValueError (msg : string)
| SystemExit (status : Z).

Inductive Result (A : Type) : Type :=
| Ok (a : A)
| Raise (e : exn).
Arguments Ok {A} a.
Arguments Raise {A} e.

(** A computation returns or raises, leaves a world and a trace of the
    calls it made. *)
Definition M (A : Type) : Type :=
  Env -> World -> Result A * World * list event.

Definition ret {A} (a : A) : M A := fun _ w => (Ok a, w, []).

Definition raise {A} (e : exn) : M A := fun _ w => (Raise e, w, []).

Definition bind {A B} (m : M A) (k : A -> M B) : M B :=
  fun env w =>
    match m env w with
    | (Ok a, w1, t1) =>
        match k a env w1 with
        | (r, w2, t2) => (r, w2, (t1 ++ t2)%list)
        end
    | (Raise e, w1, t1) => (Raise e, w1, t1)
    end.

Notation "x <- m ;; k" := (bind m (fun x => k))
  (at level 61, m at next level, right associativity).
Notation "m ;; k" := (bind m (fun _ => k))
  (at level 61, right associativity).

(** [try: body finally: cleanup] *)
Definition try_finally {A} (body : M A) (cleanup : M unit) : M A :=
  fun env w =>
    match body env w with
    | (r, w1, t1) =>
        match cleanup env w1 with
        | (Ok _, w2, t2) => (r, w2, (t1 ++ t2)%list)
        | (Raise e, w2, t2) => (Raise e, w2, (t1 ++ t2)%list)
        end
    end.

(** [for x in xs: f(x)] *)
Fixpoint for_each {A} (xs : list A) (f : A -> M unit) : M unit :=
  match xs with
  | [] => ret tt
  | x :: xs' => f x ;; for_each xs' f
  end.

Definition emit (e : event) : M unit := fun _ w => (Ok tt, w, [e]).

Definition print (text : string) : M unit := emit (Print text).

(** A relative path is read from the working directory. *)
Definition absolute (path : string) : bool :=
  match Str.strip_prefix "/" path with
  | Some _ => true
  | None => false
  end.

Definition resolve (dir path : string) : string :=
  if absolute path then path else dir ++ "/" ++ path.

Definition getcwd : M string := fun _ w => (Ok (cwd w), w, []).

(** [os.chdir(directory)] *)
Definition chdir (directory : string) : M unit :=
  fun env w =>
    let target := resolve (cwd w) directory in
    if is_dir env (files w) target
    then (Ok tt, mkWorld target (files w) (stdin w), [Chdir directory])
    else (Raise (OSError directory), w, [Chdir directory]).

(** [glob.glob(pattern)] *)
Definition glob (pattern : string) : M (list string) :=
  fun env w =>
    (Ok (matches_of env (files w) (cwd w) pattern), w, [Glob (cwd w) pattern]).

(** [subprocess.check_output(args)] *)
Definition check_output (args : list string) : M string :=
  fun env w =>
    let done := spawn env (files w) (cwd w) args in
    let w' := mkWorld (cwd w) (after done) (stdin w) in
    if (returncode done =? 0)%Z
    then (Ok (stdout done), w', [CheckOutput (cwd w) args])
    else (Raise (CalledProcessError args), w', [CheckOutput (cwd w) args]).

(** [subprocess.check_call(args)] *)
Definition check_call (args : list string) : M unit :=
  fun env w =>
    let done := spawn env (files w) (cwd w) args in
    let w' := mkWorld (cwd w) (after done) (stdin w) in
    if (returncode done =? 0)%Z
    then (Ok tt, w', [CheckCall (cwd w) args])
    else (Raise (CalledProcessError args), w', [CheckCall (cwd w) args]).

(** [with open(path, 'r', encoding="utf-8") as f]: the text of the
    file, as the reader will see it. *)
Definition open_r (path : string) : M TextIO :=
  fun _ w =>
    match files w (resolve (cwd w) path) with
    | Some contents => (Ok (Str.universal_newlines contents), w, [Read path])
    | None => (Raise (OSError path), w, [Read path])
    end.

(** [with open(path, 'w', encoding="utf-8") as f: f.write(contents)] *)
Definition open_w_write (path contents : string) : M unit :=
  fun _ w =>
    let key := resolve (cwd w) path in
    (Ok tt,
     mkWorld (cwd w)
       (fun p => if String.eqb p key then Some contents else files w p)
       (stdin w),
     [Write path contents]).

(** [input(prompt)] *)
Definition input (prompt : string) : M string :=
  fun _ w =>
    match stdin w with
    | line :: rest => (Ok line, mkWorld (cwd w) (files w) rest, [Input prompt])
    | [] => (Raise EOFError, w, [Input prompt])
    end.

(** ** [pushd] *)

(** [with pushd(directory): body] *)
Definition pushd {A} (directory : string) (body : M A) : M A :=
  prev <- getcwd ;;
  chdir directory ;;
  try_finally body (chdir prev).

(** ** Components *)

(** [class Component]: a name, the names of the components it depends
    on, and an optional hook to call before committing. *)
Record Component : Type := mkComponent {
  name : string;
  dependencies : list string;
  precommit_hook : option (M unit)
}.

(** The terminal escapes of the progress messages. *)
Definition green_bold (text : string) : string :=
  String Str.ESC "[32;1m" ++ text ++ String Str.ESC "[0m".

Definition bold (text : string) : string :=
  String Str.ESC "[1m" ++ text ++ String Str.ESC "[0m".

(** [Component.validate(self)] *)
Definition validate (self : Component) : M unit :=
  print (green_bold "Validating" ++ " " ++ name self ++ " ...") ;;
  pushd (name self)
    (out <- check_output ["git"; "branch"; "--show-current"] ;;
     let branch := Str.strip out in
     if negb (String.eqb branch "main")
     then raise (RuntimeError
                   ("component " ++ name self ++ " is not checked out to main"))
     else ret tt).

(** [Component._update_chart(self, path, version)] *)
Definition _update_chart (path : string) (version : Version) : M unit :=
  chart <- open_r path ;;
  let contents := _update_chart_contents chart version in
  open_w_write path contents.

(** [Component._update_openapi(self, path, version)] *)
Definition _update_openapi (path : string) (version : Version) : M unit :=
  chart <- open_r path ;;
  let contents := _update_openapi_contents chart version in
  open_w_write path contents.

(** [matches[0]] *)
Definition first_match (matches : list string) : M string :=
  match matches with
  | m :: _ => ret m
  | [] => raise IndexError
  end.

(** [Component.release(self, version)] *)
Definition release (self : Component) (version : Version) : M unit :=
  print (green_bold "Releasing" ++ " " ++ name self ++ " ...") ;;
  pushd (name self)
    (print (bold "Updating Helm" ++ " ...") ;;
     matches <- glob "charts/**/Chart.yaml" ;;
     (if negb (Nat.eqb (List.length matches) 1)
      then raise (RuntimeError
                    ("failed to find Chart.yaml for component " ++ name self))
      else ret tt) ;;
     path <- first_match matches ;;
     _update_chart path version ;;

     (match dependencies self with
      | _ :: _ =>
          print (bold "Updating Go Dependencies" ++ " ...") ;;
          for_each (dependencies self) (fun dependency =>
            check_call ["go"; "get";
                        "github.com/unikorn-cloud/" ++ dependency ++ "@"
                        ++ canonical_version version]) ;;
          check_call ["go"; "mod"; "tidy"]
      | [] => ret tt
      end) ;;

     (if negb (is_set (prerelease version))
      then
        print (bold "Updating OpenAPI" ++ " ...") ;;
        matches <- glob "pkg/openapi/*.spec.yaml" ;;
        (if Nat.ltb 1 (List.length matches)
         then raise (RuntimeError
                       ("expected to find 0 or 1 OpenAPI spec.yaml for component "
                        ++ name self))
         else ret tt) ;;
        (match matches with
         | path :: _ =>
             _update_openapi path version ;;
             check_call ["make"; "validate"]
         | [] => ret tt
         end) ;;
        (match precommit_hook self with
         | Some hook =>
             print (bold "Calling Precommit Hook" ++ " ...") ;;
             hook
         | None => ret tt
         end)
      else ret tt) ;;

     let branch := "bump" in
     let tag := canonical_version version in
     let title := "Version " ++ tag in

     print (bold "Committing Update" ++ " ...") ;;
     check_call ["git"; "checkout"; "-b"; branch] ;;
     check_call ["git"; "add"; "."] ;;
     check_call ["git"; "commit"; "-m"; title] ;;
     check_call ["git"; "push"; "-f"; "origin"; branch] ;;
     check_call ["gh"; "pr"; "create"; "--head"; branch; "--title"; title;
                 "--body"; EmptyString] ;;

     print (bold "Merge" ++ " ...") ;;
     input "Please get the pull request approved and merged, then hit ENTER to continue" ;;

     print (bold "Release" ++ " ...") ;;
     check_call ["git"; "checkout"; "main"] ;;
     check_call ["git"; "pull"] ;;
     check_call ["git"; "tag"; tag] ;;
     check_call ["git"; "push"; "origin"; tag] ;;
     check_call ["git"; "branch"; "-D"; branch]).

(** [ui_npm_update()] *)
Definition ui_npm_update : M unit :=
  check_call ["npm"; "run"; "openapi:identity"] ;;
  check_call ["npm"; "run"; "openapi:region"] ;;
  check_call ["npm"; "run"; "openapi:compute"] ;;
  check_call ["npm"; "run"; "openapi:kubernetes"].

Definition COMPONENTS : list Component := [
  mkComponent "core" [] None;
  mkComponent "identity" ["core"] None;
  mkComponent "region" ["core"; "identity"] None;
  mkComponent "compute" ["core"; "identity"; "region"] None;
  mkComponent "kubernetes" ["core"; "identity"; "region"] None;
  mkComponent "ui" [] (Some ui_npm_update)
].

(** [next((i for i, c in enumerate(components) if c.name == step), -1)] *)
Fixpoint index_from (i : Z) (components : list Component) (step : string) : Z :=
  match components with
  | [] => (-1)%Z
  | c :: rest =>
      if String.eqb (name c) step then i
      else index_from (i + 1)%Z rest step
  end.

(** [xs[index:]]: a negative index counts from the end, and an index
    outside the list is clamped to it. *)
Definition slice_from {A} (index : Z) (xs : list A) : list A :=
  let n := Z.of_nat (List.length xs) in
  let start := if (index <? 0)%Z then Z.max 0 (index + n) else Z.min index n in
  skipn (Z.to_nat start) xs.

(** [components_from(step)] *)
Definition components_from (step : option string) : list Component :=
  match step with
  | None => COMPONENTS
  | Some step =>
      let index := index_from 0 COMPONENTS step in
      slice_from index COMPONENTS
  end.

(** ** The command line *)

(** [SemverNormalizeAction.__call__]: the value stored for
    [--version]. *)
Definition SemverNormalizeAction (values : string) : M string :=
  match values with
  | EmptyString => raise IndexError
  | String c rest =>
      if Ascii.eqb c "v" then ret rest else ret values
  end.

Record Namespace : Type := mkNamespace {
  version : string;
  from_step : option string
}.

(** The check of [choices=[x.name for x in COMPONENTS]]: the parser
    leaves with status 2 when [--from-step] is not the name of a
    component. *)
Definition check_choice (from_step_arg : option string) : M unit :=
  match from_step_arg with
  | Some step =>
      if existsb (String.eqb step) (map name COMPONENTS) then ret tt
      else raise (SystemExit 2)
  | None => ret tt
  end.

(** [parser.parse_args()], given what the command line holds for the
    two options.  The parser takes the options in the order of the
    command line, checking the choice of [--from-step] and calling the
    action of [--version] as it meets them; it leaves with status 2
    when [--from-step] is not the name of a component, and at the end
    when [--version] is missing. *)
Definition parse_args (version_arg from_step_arg : option string) : M Namespace :=
  fun env =>
    match version_arg with
    | None =>
        (check_choice from_step_arg ;; raise (SystemExit 2)) env
    | Some values =>
        if version_first env
        then (normal <- SemverNormalizeAction values ;;
              check_choice from_step_arg ;;
              ret (mkNamespace normal from_step_arg)) env
        else (check_choice from_step_arg ;;
              normal <- SemverNormalizeAction values ;;
              ret (mkNamespace normal from_step_arg)) env
    end.

(** [semver.Version.parse(args.version)] *)
Definition Version_parse (s : string) : M Version :=
  match Semver.parse s with
  | Some v => ret v
  | None => raise (ValueError (s ++ " is not valid SemVer string"))
  end.

(** The two loops of [main]. *)
Definition run (components : list Component) (version : Version) : M unit :=
  for_each components validate ;;
  for_each components (fun component => release component version).

(** [main()] *)
Definition main (version_arg from_step_arg : option string) : M unit :=
  args <- parse_args version_arg from_step_arg ;;
  version <- Version_parse (version args) ;;
  let components := components_from (from_step args) in
  run components version.

End Release.

(* ===================================================================== *)
(** * Lines *)
(* ===================================================================== *)

(** The vocabulary in which the patchers are specified: the lines of a
    text, and the shape of the lines the OpenAPI pattern matches. *)

Module Lines.

(** The lines of a text, as successive calls of [readline] return
    them: each ends with its line feed, except possibly the last. *)
Fixpoint lines_of (text : string) : list string :=
  match text with
  | EmptyString => []
  | String c rest =>
      if Ascii.eqb c Str.LF then Str.nl :: lines_of rest
      else match lines_of rest with
           | [] => [String c EmptyString]
           | line :: more => String c line :: more
           end
  end.

(** A line that ends with its line feed, and the last line of a text
    that does not end with a line feed. *)
Definition terminated (line : string) : Prop :=
  exists body, Str.no_lf body = true /\ line = body ++ Str.nl.

Definition unterminated (line : string) : Prop :=
  Str.truthy line = true /\ Str.no_lf line = true.

(** The lists of lines a text can be read as. *)
Inductive lines_ok : list string -> Prop :=
| lines_ok_nil : lines_ok []
| lines_ok_last (line : string) : unterminated line -> lines_ok [line]
| lines_ok_cons (line : string) (more : list string) :
    terminated line -> lines_ok more -> lines_ok (line :: more).

(** A non-empty run of characters of a class. *)
Definition run_of (p : ascii -> bool) (s : string) : Prop :=
  Str.truthy s = true /\ Str.all p s = true.

(** The lines the OpenAPI pattern matches: indentation, the key,
    white space, three dotted numbers, and anything after them. *)
Definition openapi_shape (indent line : string) : Prop :=
  exists gap d1 d2 d3 rest,
    line = indent ++ "version:" ++ gap ++ d1 ++ "." ++ d2 ++ "." ++ d3 ++ rest
    /\ run_of Str.is_space indent /\ run_of Str.is_space gap
    /\ run_of Str.is_digit d1 /\ run_of Str.is_digit d2
    /\ run_of Str.is_digit d3.

End Lines.

(* ===================================================================== *)
(** * Runs *)
(* ===================================================================== *)

(** The vocabulary in which the order of a run is stated: the calls
    that open a validation and a release, and the record of a loop that
    calls [f] on one component after the other. *)

Module Runs.

Import Release.

Definition validating (c : Component) : event :=
  Print (green_bold "Validating" ++ " " ++ name c ++ " ...").

Definition releasing (c : Component) : event :=
  Print (green_bold "Releasing" ++ " " ++ name c ++ " ...").

Definition git_branch : list string := ["git"; "branch"; "--show-current"].

(** The calls of one validation: the message, the change of directory,
    and, when the directory exists, the query of the branch and the
    change back. *)
Definition validation_calls (c : Component) (t : list event) : Prop :=
  t = [validating c; Chdir (name c)]
  \/ exists dir prev,
       t = [validating c; Chdir (name c); CheckOutput dir git_branch;
            Chdir prev].

(** The calls of one release start with its message and the change of
    directory. *)
Definition release_calls (c : Component) (t : list event) : Prop :=
  exists rest, t = releasing c :: Chdir (name c) :: rest.

Definition is_check_call (e : event) : bool :=
  match e with
  | CheckCall _ _ => true
  | _ => false
  end.

Definition is_write (e : event) : bool :=
  match e with
  | Write _ _ => true
  | _ => false
  end.

(** A component and the calls made for it. *)
Definition segment : Type := Component * list event.

Definition traces (segments : list segment) : list event :=
  concat (map snd segments).

(** [in_order f env w cs r w' segments]: from the world [w], calling
    [f] on the components [cs] one after the other, each call starting
    in the world the previous one left and only after the previous one
    returned, ends in [w'] with result [r]; [segments] lists, in order,
    the components reached and the calls of each. *)
Inductive in_order (f : Component -> M unit) (env : Env) :
    World -> list Component -> Result unit -> World -> list segment -> Prop :=
| in_order_done (w : World) :
    in_order f env w [] (Ok tt) w []
| in_order_next (w : World) (c : Component) (cs : list Component)
    (w1 : World) (t : list event) (r : Result unit) (w2 : World)
    (segments : list segment) :
    f c env w = (Ok tt, w1, t) ->
    in_order f env w1 cs r w2 segments ->
    in_order f env w (c :: cs) r w2 ((c, t) :: segments)
| in_order_stop (w : World) (c : Component) (cs : list Component)
    (e : exn) (w1 : World) (t : list event) :
    f c env w = (Raise e, w1, t) ->
    in_order f env w (c :: cs) (Raise e) w1 [(c, t)].

End Runs.

(* ===================================================================== *)
(** * Sample inputs *)
(* ===================================================================== *)

Module Sample.

Import Semver Release.

Definition v1_0_0 : Version := mkVersion 1 0 0 None None.

Definition v1_1_0_rc1 : Version := mkVersion 1 1 0 (Some "rc1") None.

Definition v1_2_3 : Version := mkVersion 1 2 3 None None.

Definition v1_2_3_rc1 : Version := mkVersion 1 2 3 (Some "rc1") None.

Definition chart : string :=
  "version: 0.0.0" ++ Str.nl ++ "appVersion: 0.0.0" ++ Str.nl
  ++ "other: x" ++ Str.nl.

Definition chart_patched : string :=
  "version: v1.0.0" ++ Str.nl ++ "appVersion: v1.0.0" ++ Str.nl
  ++ "other: x" ++ Str.nl.

Definition openapi_bare : string := "  version: 1.0.0" ++ Str.nl.

Definition openapi_beta : string := "  version: 1.0.0-beta" ++ Str.nl.

Definition openapi_patched : string := "  version: 1.1.0-rc1" ++ Str.nl.

(** A checkout in which every directory exists, every repository is on
    [main] with one chart and no OpenAPI document, and every command
    succeeds. *)
Definition chart_glob : string := "charts/**/Chart.yaml".

Definition env_ok : Env :=
  mkEnv (fun _ _ => true)
        (fun _ _ pattern =>
           if String.eqb pattern chart_glob then ["charts/unikorn/Chart.yaml"]
           else [])
        (fun fs _ _ => mkCompleted 0 ("main" ++ Str.nl) fs) true.

(** The same checkout with no chart at all, and with two charts. *)
Definition env_no_chart : Env :=
  mkEnv (fun _ _ => true) (fun _ _ _ => [])
        (fun fs _ _ => mkCompleted 0 ("main" ++ Str.nl) fs) true.

Definition env_two_charts : Env :=
  mkEnv (fun _ _ => true)
        (fun _ _ _ => ["charts/a/Chart.yaml"; "charts/b/Chart.yaml"])
        (fun fs _ _ => mkCompleted 0 ("main" ++ Str.nl) fs) true.

Definition world : World :=
  mkWorld "/work" (fun _ => Some chart) [EmptyString; EmptyString].

(** Two runs of the script: a release from [kubernetes] on, and a
    release of everything where no repository has a chart. *)
Definition run_from_kubernetes : Result unit * World * list event :=
  main (Some "v1.2.3") (Some "kubernetes") env_ok world.

Definition run_without_chart : Result unit * World * list event :=
  main (Some "v1.2.3") None env_no_chart world.

Definition calls (outcome : Result unit * World * list event) : list event :=
  snd outcome.

Definition result (outcome : Result unit * World * list event) : Result unit :=
  fst (fst outcome).

End Sample.

(* ===================================================================== *)
(** * Calls *)
(* ===================================================================== *)

(** The vocabulary of what a computation does and never does: the calls
    it is confined to, the calls that create a tag, and the calls that
    end a release. *)

Module Calls.

Import Semver Release.

(** Every call [m] makes, in every world, satisfies [P]. *)
Definition emits_only {A : Type} (P : event -> bool) (m : M A) : Prop :=
  forall env w, forallb P (snd (m env w)) = true.

(** [git tag ...] *)
Definition is_tag_call (e : event) : bool :=
  match e with
  | CheckCall _ (program :: command :: _) =>
      String.eqb program "git" && String.eqb command "tag"
  | _ => false
  end.

Definition is_input (e : event) : bool :=
  match e with
  | Input _ => true
  | _ => false
  end.

Definition no_tag (e : event) : bool := negb (is_tag_call e).

(** No tag is created before the operator has been asked. *)
Fixpoint tags_after_input (t : list event) : bool :=
  match t with
  | [] => true
  | e :: rest =>
      if is_input e then true else no_tag e && tags_after_input rest
  end.

(** Whatever happens, [m] creates no tag before it has asked. *)
Definition waits_for_input {A : Type} (m : M A) : Prop :=
  forall env w, tags_after_input (snd (m env w)) = true.

Definition openapi_glob : string := "pkg/openapi/*.spec.yaml".

(** The calls of the OpenAPI stage: the glob and [make validate]. *)
Definition is_openapi_call (e : event) : bool :=
  match e with
  | Glob _ pattern => String.eqb pattern openapi_glob
  | CheckCall _ [program; target] =>
      String.eqb program "make" && String.eqb target "validate"
  | _ => false
  end.

Definition no_openapi (e : event) : bool := negb (is_openapi_call e).

(** What a release that returns has done last, in the directory [dir]:
    the commit on the branch, the pull request, the wait for the
    operator, and the tag. *)
Definition commit_and_tag (dir : string) (version : Version) : list event :=
  let tag := canonical_version version in
  let title := "Version " ++ tag in
  [Print (bold "Committing Update" ++ " ...");
   CheckCall dir ["git"; "checkout"; "-b"; "bump"];
   CheckCall dir ["git"; "add"; "."];
   CheckCall dir ["git"; "commit"; "-m"; title];
   CheckCall dir ["git"; "push"; "-f"; "origin"; "bump"];
   CheckCall dir ["gh"; "pr"; "create"; "--head"; "bump"; "--title"; title;
                  "--body"; EmptyString];
   Print (bold "Merge" ++ " ...");
   Input "Please get the pull request approved and merged, then hit ENTER to continue";
   Print (bold "Release" ++ " ...");
   CheckCall dir ["git"; "checkout"; "main"];
   CheckCall dir ["git"; "pull"];
   CheckCall dir ["git"; "tag"; tag];
   CheckCall dir ["git"; "push"; "origin"; tag];
   CheckCall dir ["git"; "branch"; "-D"; "bump"]].

(** [s] holds no carriage return. *)
Definition not_cr (c : ascii) : bool := negb (Ascii.eqb c Str.CR).

Definition no_cr (s : string) : bool := Str.all not_cr s.

(** A call that names the directory it is made in names [dir]. *)
Definition made_in (dir : string) (e : event) : bool :=
  match e with
  | CheckCall d _ | CheckOutput d _ | Glob d _ => String.eqb d dir
  | _ => true
  end.

(** [m] ends in the directory it started in, and made its calls
    there. *)
Definition stays_in_directory {A : Type} (m : M A) : Prop :=
  forall env w,
    cwd (snd (fst (m env w))) = cwd w
    /\ forallb (made_in (cwd w)) (snd (m env w)) = true.

(** [s] holds no character [c]. *)
Definition lacks (c : ascii) (s : string) : bool :=
  Str.all (fun x => negb (Ascii.eqb x c)) s.

(** [version] without its build metadata. *)
Definition without_build (version : Version) : Version :=
  mkVersion (major version) (minor version) (patch version)
            (prerelease version) None.


(** The calls of a validation: messages, changes of directory and
    queries that return their output. *)
Definition only_queries (e : event) : bool :=
  match e with
  | Print _ | Chdir _ | CheckOutput _ _ => true
  | _ => false
  end.

(** [--from-step] is absent or names a component. *)
Definition known_step (step : option string) : Prop :=
  match step with
  | None => True
  | Some s => In s (map name COMPONENTS)
  end.

(** A checkout with no directory at all, and one whose repositories
    are on another branch. *)
Definition env_no_directory : Env :=
  mkEnv (fun _ _ => false) (fun _ _ _ => [])
        (fun fs _ _ => mkCompleted 0 ("main" ++ Str.nl) fs) true.

Definition env_feature_branch : Env :=
  mkEnv (fun _ _ => true) (fun _ _ _ => ["charts/unikorn/Chart.yaml"])
        (fun fs _ _ => mkCompleted 0 ("feature/x" ++ Str.nl) fs) true.

(** A checkout with one chart and two OpenAPI documents. *)
Definition env_two_specs : Env :=
  mkEnv (fun _ _ => true)
        (fun _ _ pattern =>
           if String.eqb pattern openapi_glob
           then ["pkg/openapi/a.spec.yaml"; "pkg/openapi/b.spec.yaml"]
           else ["charts/unikorn/Chart.yaml"])
        (fun fs _ _ => mkCompleted 0 ("main" ++ Str.nl) fs) true.

(** A world with no file. *)
Definition world_no_file : World :=
  mkWorld "/work" (fun _ => None) [EmptyString].

End Calls.

Import Semver Release Lines Runs.
Import Calls.

(* ===================================================================== *)
(** * Facts about text *)
(* ===================================================================== *)

Section TextFacts.

Lemma append_nil_r (s : string) : s ++ EmptyString = s.
Proof. induction s as [|c s IH]; simpl; [reflexivity | now rewrite IH]. Qed.

Lemma append_assoc (a b c : string) : (a ++ b) ++ c = a ++ (b ++ c).
Proof. induction a as [|x a IH]; simpl; [reflexivity | now rewrite IH]. Qed.

Lemma length_append (a b : string) :
  String.length (a ++ b) = String.length a + String.length b.
Proof. induction a as [|x a IH]; simpl; [reflexivity | now rewrite IH]. Qed.

Lemma truthy_append (a b : string) :
  Str.truthy a = true -> Str.truthy (a ++ b) = true.
Proof. destruct a; [discriminate | reflexivity]. Qed.

Lemma all_append (p : ascii -> bool) (a b : string) :
  Str.all p (a ++ b) = Str.all p a && Str.all p b.
Proof.
  induction a as [|x a IH]; simpl; [reflexivity|].
  now rewrite IH, andb_assoc.
Qed.

Lemma all_impl (p q : ascii -> bool) (s : string) :
  (forall c, p c = true -> q c = true) ->
  Str.all p s = true -> Str.all q s = true.
Proof.
  intros Hpq. induction s as [|c s IH]; simpl; [reflexivity|].
  intros [Hc Hs]%andb_prop. now rewrite (Hpq _ Hc), IH.
Qed.

Lemma strip_prefix_app (p r : string) : Str.strip_prefix p (p ++ r) = Some r.
Proof.
  induction p as [|c p IH]; simpl; [now destruct r|].
  now rewrite Ascii.eqb_refl.
Qed.

Lemma strip_prefix_inv (p s r : string) :
  Str.strip_prefix p s = Some r -> s = p ++ r.
Proof.
  revert s. induction p as [|c p IH]; intros s; simpl.
  - destruct s; now intros [= <-].
  - destruct s as [|d s]; [discriminate|].
    destruct (Ascii.eqb c d) eqn:E; [|discriminate].
    apply Ascii.eqb_eq in E as <-. intros H. now rewrite (IH _ H).
Qed.

Lemma substring_app (a b : string) :
  substring 0 (String.length a) (a ++ b) = a.
Proof. induction a as [|c a IH]; simpl; [now destruct b | now rewrite IH]. Qed.

(** What a matcher has read of [a ++ b] when [b] is left. *)
Lemma consumed_app (a b : string) : Re.consumed (a ++ b) b = a.
Proof.
  unfold Re.consumed. rewrite length_append.
  replace (String.length a + String.length b - String.length b)
    with (String.length a) by lia.
  apply substring_app.
Qed.

(** Every text splits into its longest prefix in a class and a rest
    that does not start in the class. *)
Lemma class_prefix (p : ascii -> bool) (s : string) :
  exists a b, s = a ++ b /\ Str.all p a = true /\ Str.stops p b.
Proof.
  induction s as [|c s (a & b & -> & Ha & Hb)].
  - exists EmptyString, EmptyString. now repeat split.
  - destruct (p c) eqn:Hc.
    + exists (String c a), b. simpl. now rewrite Hc, Ha.
    + exists EmptyString, (String c (a ++ b)). now repeat split.
Qed.

(** Decimal numerals. *)
Lemma string_of_uint_digits (d : Decimal.uint) :
  Str.all Str.is_digit (NilEmpty.string_of_uint d) = true.
Proof. induction d; simpl; try reflexivity; assumption. Qed.

Lemma of_N_digits (n : N) : Str.all Str.is_digit (Str.of_N n) = true.
Proof.
  unfold Str.of_N, NilZero.string_of_uint.
  destruct (N.to_uint n); try reflexivity;
    apply (string_of_uint_digits (_ _)).
Qed.

Lemma of_N_truthy (n : N) : Str.truthy (Str.of_N n) = true.
Proof.
  unfold Str.of_N, NilZero.string_of_uint.
  destruct (N.to_uint n); reflexivity.
Qed.

End TextFacts.

(* ===================================================================== *)
(** * Facts about the matcher *)
(* ===================================================================== *)

Section MatcherFacts.

Context {R : Type}.

(** [p+] reads the longest run first: when the continuation accepts what
    follows the run, that is the match. *)
Lemma run_plus_longest (p : ascii -> bool) (a b : string) (g : Re.groups)
    (k : string -> Re.groups -> option R) (x : R) :
  Str.truthy a = true -> Str.all p a = true -> Str.stops p b ->
  k b g = Some x ->
  Re.run (Re.Plus p) (a ++ b) g k = Some x.
Proof.
  intros Ha Hp Hb Hk. simpl.
  induction a as [|c a IH]; [discriminate|].
  simpl in Hp. apply andb_prop in Hp as [Hc Hp]. simpl. rewrite Hc.
  destruct a as [|d a].
  - simpl. destruct b as [|e b]; [assumption|].
    simpl in Hb. rewrite Hb. assumption.
  - now rewrite (IH eq_refl Hp).
Qed.

(** Whatever [run] accepts, it has read a text of the pattern's language
    and handed the rest to its continuation. *)
Lemma run_sound (r : Re.regex) :
  forall (s : string) (g : Re.groups) (k : string -> Re.groups -> option R)
         (x : R),
    Re.run r s g k = Some x ->
    exists w s' g', s = w ++ s' /\ Re.lang r w /\ k s' g' = Some x.
Proof.
  induction r as [l | r1 IH1 r2 IH2 | r1 IH1 r2 IH2 | p | n r' IH | i r' IH];
    intros s g k x; simpl.
  - destruct (Str.strip_prefix l s) as [s'|] eqn:E; [|discriminate].
    intros H. apply strip_prefix_inv in E. now exists l, s', g.
  - intros H. apply IH1 in H as (u & s1 & g1 & -> & Hu & H).
    apply IH2 in H as (v & s2 & g2 & -> & Hv & H).
    exists (u ++ v), s2, g2. rewrite append_assoc. split; [reflexivity|].
    split; [|assumption]. now exists u, v.
  - destruct (Re.run r1 s g k) as [y|] eqn:E.
    + intros [= <-]. apply IH1 in E as (w & s' & g' & -> & Hw & H).
      exists w, s', g'. auto.
    + intros H. apply IH2 in H as (w & s' & g' & -> & Hw & H).
      exists w, s', g'. auto.
  - induction s as [|c s IHs]; [discriminate|].
    destruct (p c) eqn:Hc; [|discriminate].
    match goal with |- context [match ?m with Some _ => _ | None => _ end] =>
      destruct m as [y|] eqn:E end.
    + intros [= <-]. destruct (IHs eq_refl) as (w & s' & g' & -> & [_ Hw] & H).
      exists (String c w), s', g'. simpl. now rewrite Hc, Hw.
    + intros H. exists (String c EmptyString), s, g. simpl. now rewrite Hc.
  - revert s g x. induction n as [|n IHn]; intros s g x H.
    + now exists EmptyString, s, g.
    + apply IH in H as (u & s1 & g1 & -> & Hu & H).
      apply IHn in H as (v & s2 & g2 & -> & Hv & H).
      exists (u ++ v), s2, g2. rewrite append_assoc. split; [reflexivity|].
      split; [|assumption]. now exists u, v.
  - intros H. apply IH in H as (w & s' & g' & -> & Hw & H).
    now exists w, s', (Re.set_group i (Re.consumed (w ++ s') s') g').
Qed.

End MatcherFacts.

(** A successful [re.match] has read a prefix of the line that belongs
    to the pattern's language. *)
Lemma match_sound (pattern : Re.regex) (line : string) (m : Re.groups) :
  Re.match_ pattern line = Some m ->
  exists w rest, line = w ++ rest /\ Re.lang pattern w.
Proof.
  unfold Re.match_. intros H.
  apply run_sound in H as (w & s' & g' & -> & Hw & _). now exists w, s'.
Qed.

Section PatternFacts.

Context {R : Type}.

Lemma run_cat (r1 r2 : Re.regex) (s : string) (g : Re.groups)
    (k : string -> Re.groups -> option R) :
  Re.run (Re.Cat r1 r2) s g k
  = Re.run r1 s g (fun s' g' => Re.run r2 s' g' k).
Proof. reflexivity. Qed.

Lemma run_group (i : nat) (r : Re.regex) (s : string) (g : Re.groups)
    (k : string -> Re.groups -> option R) :
  Re.run (Re.Group i r) s g k
  = Re.run r s g (fun s' g' => k s' (Re.set_group i (Re.consumed s s') g')).
Proof. reflexivity. Qed.

Lemma run_lit (l s : string) (g : Re.groups)
    (k : string -> Re.groups -> option R) :
  Re.run (Re.Lit l) (l ++ s) g k = k s g.
Proof. simpl. now rewrite strip_prefix_app. Qed.

Lemma run_rep_S (n : nat) (r : Re.regex) (s : string) (g : Re.groups)
    (k : string -> Re.groups -> option R) :
  Re.run (Re.Rep (S n) r) s g k
  = Re.run r s g (fun s' g' => Re.run (Re.Rep n r) s' g' k).
Proof. reflexivity. Qed.

Lemma run_rep_O (r : Re.regex) (s : string) (g : Re.groups)
    (k : string -> Re.groups -> option R) :
  Re.run (Re.Rep O r) s g k = k s g.
Proof. reflexivity. Qed.

End PatternFacts.

(** ** The chart pattern *)

Lemma chart_match_version (rest : string) :
  exists m, Re.match_ chart_pattern ("version:" ++ rest) = Some m
            /\ Re.group m 1 = "version".
Proof.
  eexists. split.
  - unfold Re.match_, chart_pattern. cbn. reflexivity.
  - unfold Re.group, Re.set_group. cbn [Nat.eqb].
    apply (consumed_app "version" (String ":" rest)).
Qed.

Lemma chart_match_appVersion (rest : string) :
  exists m, Re.match_ chart_pattern ("appVersion:" ++ rest) = Some m
            /\ Re.group m 1 = "appVersion".
Proof.
  eexists. split.
  - unfold Re.match_, chart_pattern. cbn. reflexivity.
  - unfold Re.group, Re.set_group. cbn [Nat.eqb].
    apply (consumed_app "appVersion" (String ":" rest)).
Qed.

Lemma chart_match_inv (line : string) (m : Re.groups) :
  Re.match_ chart_pattern line = Some m ->
  exists rest, line = "version:" ++ rest \/ line = "appVersion:" ++ rest.
Proof.
  intros H. apply match_sound in H as (w & rest & -> & Hw).
  destruct Hw as (u & v & -> & [-> | ->] & ->); exists rest; [left | right];
    reflexivity.
Qed.

(** The three cases of the chart patcher's loop body. *)
Lemma chart_line_version (v : Version) (rest : string) :
  chart_line v ("version:" ++ rest)
  = "version: " ++ canonical_version v ++ Str.nl.
Proof.
  unfold chart_line.
  destruct (chart_match_version rest) as (m & -> & ->). reflexivity.
Qed.

Lemma chart_line_appVersion (v : Version) (rest : string) :
  chart_line v ("appVersion:" ++ rest)
  = "appVersion: " ++ canonical_version v ++ Str.nl.
Proof.
  unfold chart_line.
  destruct (chart_match_appVersion rest) as (m & -> & ->). reflexivity.
Qed.

Lemma chart_line_other (v : Version) (line : string) :
  (forall rest, line <> "version:" ++ rest) ->
  (forall rest, line <> "appVersion:" ++ rest) ->
  chart_line v line = line.
Proof.
  intros H1 H2. unfold chart_line.
  destruct (Re.match_ chart_pattern line) as [m|] eqn:E; [|reflexivity].
  apply chart_match_inv in E as (rest & [E | E]);
    [destruct (H1 _ E) | destruct (H2 _ E)].
Qed.

(** ** The OpenAPI pattern *)

Lemma openapi_match_intro (indent line : string) :
  openapi_shape indent line ->
  exists m, Re.match_ openapi_pattern line = Some m
            /\ Re.group m 1 = indent ++ "version".
Proof.
  intros (gap & d1 & d2 & d3 & rest & -> & [Hi1 Hi2] & [Hg1 Hg2]
          & [Ha1 Ha2] & [Hb1 Hb2] & [Hc1 Hc2]).
  destruct (class_prefix Str.is_digit rest) as (dd & rest' & -> & Hdd & Hstop).
  eexists. split.
  - unfold Re.match_, openapi_pattern.
    rewrite run_cat, run_group, run_cat.
    apply run_plus_longest; [assumption | assumption | reflexivity |].
    change ("version:" ++ ?x) with ("version" ++ ":" ++ x).
    rewrite run_lit, run_cat, run_lit, run_cat.
    apply run_plus_longest;
      [assumption | assumption | destruct d1; [discriminate|] |].
    { simpl in *. apply andb_prop in Ha2 as [Ha2 _].
      destruct a as [[|] [|] [|] [|] [|] [|] [|] [|]]; try discriminate;
        reflexivity. }
    rewrite run_cat.
    apply run_plus_longest; [assumption | assumption | reflexivity |].
    rewrite run_rep_S, run_group, run_cat, run_lit.
    apply run_plus_longest; [assumption | assumption | reflexivity |].
    rewrite run_rep_S, run_group, run_cat, run_lit.
    rewrite <- append_assoc.
    apply run_plus_longest;
      [now apply truthy_append | now rewrite all_append, Hc2, Hdd
       | assumption |].
    rewrite run_rep_O. reflexivity.
  - unfold Re.group, Re.set_group. cbn [Nat.eqb].
    rewrite <- append_assoc. apply consumed_app.
Qed.

Lemma openapi_match_inv (line : string) (m : Re.groups) :
  Re.match_ openapi_pattern line = Some m ->
  exists indent, openapi_shape indent line.
Proof.
  intros H. apply match_sound in H as (w & rest & -> & Hw).
  destruct Hw as (u & v & -> & (indent & key & -> & Hindent & ->) & Hv).
  destruct Hv as (colon & v1 & -> & -> & gap & v2 & -> & Hgap & Hv).
  destruct Hv as (d1 & v3 & -> & Hd1 & Hv).
  destruct Hv as (x & v4 & -> & (dot1 & d2 & -> & -> & Hd2) & Hv).
  destruct Hv as (y & v5 & -> & (dot2 & d3 & -> & -> & Hd3) & ->).
  exists indent, gap, d1, d2, d3, rest.
  split; [|unfold run_of; simpl in *; tauto].
  rewrite !append_assoc. simpl. reflexivity.
Qed.

(** The two cases of the OpenAPI patcher's loop body. *)
Lemma openapi_line_match (v : Version) (indent line : string) :
  openapi_shape indent line ->
  openapi_line v line = indent ++ "version: " ++ str v ++ Str.nl.
Proof.
  intros H. unfold openapi_line.
  destruct (openapi_match_intro _ _ H) as (m & -> & ->).
  now rewrite append_assoc.
Qed.

Lemma openapi_line_other (v : Version) (line : string) :
  (forall indent, ~ openapi_shape indent line) ->
  openapi_line v line = line.
Proof.
  intros H. unfold openapi_line.
  destruct (Re.match_ openapi_pattern line) as [m|] eqn:E; [|reflexivity].
  apply openapi_match_inv in E as (indent & E). destruct (H _ E).
Qed.

(* ===================================================================== *)
(** * Facts about lines *)
(* ===================================================================== *)

Lemma readline_empty (file rest : string) :
  readline file = (EmptyString, rest) ->
  file = EmptyString /\ rest = EmptyString.
Proof.
  destruct file as [|c file]; simpl.
  - now intros [= <-].
  - destruct (Ascii.eqb c Str.LF); [discriminate|].
    destruct (readline file); discriminate.
Qed.

(** [lines_of] lists what [readline] returns, call after call. *)
Lemma lines_of_readline (file : string) :
  lines_of file
  = let (line, rest) := readline file in
    if Str.truthy line then line :: lines_of rest else [].
Proof.
  induction file as [|c file IH]; simpl; [reflexivity|].
  destruct (Ascii.eqb c Str.LF); [reflexivity|].
  rewrite IH. destruct (readline file) as [line rest] eqn:E.
  destruct line as [|d line]; simpl; [|reflexivity].
  apply readline_empty in E as [_ ->]. reflexivity.
Qed.

(** The loop rewrites the lines one by one, in order. *)
Lemma patch_loop_lines (rewrite : string -> string) (file : string)
    (lines : list string) :
  patch_loop rewrite file lines
  = (lines ++ map rewrite (lines_of file))%list.
Proof.
  funelim (patch_loop rewrite file lines);
    rewrite (lines_of_readline file), eq_read;
    match goal with E : Str.truthy _ = _ |- _ => rewrite E end.
  - match goal with IH : patch_loop _ _ _ = (_ ++ _)%list |- _ => rewrite IH end.
    now rewrite <- app_assoc.
  - now rewrite app_nil_r.
Qed.

Lemma join_app (a b : list string) :
  Str.join (a ++ b) = Str.join a ++ Str.join b.
Proof.
  induction a as [|l a IH]; simpl; [reflexivity|].
  now rewrite IH, append_assoc.
Qed.

Lemma join_lines_of (text : string) : Str.join (lines_of text) = text.
Proof.
  induction text as [|c text IH]; simpl; [reflexivity|].
  destruct (Ascii.eqb c Str.LF) eqn:E.
  - apply Ascii.eqb_eq in E as ->. simpl. now rewrite IH.
  - destruct (lines_of text) as [|l ls]; simpl in *; now rewrite <- IH.
Qed.

Lemma lines_of_terminated (body rest : string) :
  Str.no_lf body = true ->
  lines_of (body ++ Str.nl ++ rest) = (body ++ Str.nl) :: lines_of rest.
Proof.
  induction body as [|c body IH]; simpl; [reflexivity|].
  intros [Hc Hb]%andb_prop. apply negb_true_iff in Hc. rewrite Hc.
  change (String Str.LF rest) with (Str.nl ++ rest). now rewrite (IH Hb).
Qed.

Lemma lines_of_unterminated (line : string) :
  unterminated line -> lines_of line = [line].
Proof.
  intros [Ht Hn]. induction line as [|c line IH]; [discriminate|].
  simpl in *. apply andb_prop in Hn as [Hc Hn].
  apply negb_true_iff in Hc. rewrite Hc.
  destruct line as [|d line]; [reflexivity|].
  now rewrite (IH eq_refl Hn).
Qed.

(** Reading back the lines that were written gives the same lines. *)
Lemma lines_of_join (lines : list string) :
  lines_ok lines -> lines_of (Str.join lines) = lines.
Proof.
  induction 1 as [| line H | line more (body & Hb & ->) _ IH];
    cbn [Str.join].
  - reflexivity.
  - rewrite append_nil_r. now apply lines_of_unterminated.
  - rewrite append_assoc, lines_of_terminated by assumption. now rewrite IH.
Qed.

Lemma lines_of_ok (text : string) : lines_ok (lines_of text).
Proof.
  induction text as [|c text IH]; simpl; [constructor|].
  destruct (Ascii.eqb c Str.LF) eqn:E.
  - apply lines_ok_cons; [|assumption]. now exists EmptyString.
  - assert (Hc : negb (Ascii.eqb c Str.LF) = true) by now rewrite E.
    inversion IH as [| line [Ht Hn] | line more (body & Hb & ->) Hm].
    + apply lines_ok_last. split; [reflexivity|].
      unfold Str.no_lf. simpl. now rewrite Hc.
    + apply lines_ok_last. split; [reflexivity|].
      unfold Str.no_lf in *. simpl. now rewrite Hc, Hn.
    + apply lines_ok_cons; [|assumption]. exists (String c body).
      split; [|reflexivity]. unfold Str.no_lf in *. simpl. now rewrite Hc, Hb.
Qed.

(** A rewriting that keeps lines whole keeps the list of lines. *)
Lemma lines_ok_map (f : string -> string) (lines : list string) :
  (forall line, terminated line -> terminated (f line)) ->
  (forall line, unterminated line ->
                unterminated (f line) \/ terminated (f line)) ->
  lines_ok lines -> lines_ok (map f lines).
Proof.
  intros Ht Hu. induction 1 as [| line H | line more H _ IH]; simpl.
  - constructor.
  - destruct (Hu _ H); [now apply lines_ok_last|].
    apply lines_ok_cons; [assumption | constructor].
  - apply lines_ok_cons; auto.
Qed.

Lemma no_lf_append (a b : string) :
  Str.no_lf (a ++ b) = Str.no_lf a && Str.no_lf b.
Proof. apply all_append. Qed.

(** The start of a line holds no line feed. *)
Lemma no_lf_prefix (a b body : string) :
  Str.no_lf body = true -> Str.truthy b = true ->
  a ++ b = body ++ Str.nl -> Str.no_lf a = true.
Proof.
  revert body. induction a as [|c a IH]; intros body Hn Hb E; [reflexivity|].
  destruct body as [|d body]; simpl in E.
  - injection E as -> E. destruct a; [destruct b|]; discriminate.
  - injection E as -> E. simpl in Hn. apply andb_prop in Hn as [Hd Hn].
    unfold Str.no_lf. simpl. fold (Str.no_lf a).
    now rewrite Hd, (IH _ Hn Hb E).
Qed.

Lemma no_lf_prefix_unterminated (a b : string) :
  Str.no_lf (a ++ b) = true -> Str.no_lf a = true.
Proof. rewrite no_lf_append. now intros [H _]%andb_prop. Qed.

(* ===================================================================== *)
(** * Facts about versions *)
(* ===================================================================== *)

Lemma split_nonempty (c : ascii) (s : string) : Str.split c s <> [].
Proof.
  induction s as [|a s IH]; simpl; [discriminate|].
  destruct (Ascii.eqb a c); [discriminate|].
  destruct (Str.split c s); discriminate.
Qed.

Lemma split_all (q : ascii -> bool) (c : ascii) (s : string) :
  forallb (Str.all q) (Str.split c s) = true ->
  Str.all (fun x => q x || Ascii.eqb x c) s = true.
Proof.
  induction s as [|a s IH]; simpl; [reflexivity|].
  destruct (Ascii.eqb a c) eqn:E.
  - simpl. intros H. rewrite orb_true_r. now apply IH.
  - pose proof (split_nonempty c s) as Hne.
    destruct (Str.split c s) as [|h t]; [contradiction|].
    simpl in *. intros [[Ha Hh]%andb_prop Ht]%andb_prop.
    rewrite Ha. simpl. apply IH. now rewrite Hh, Ht.
Qed.

Lemma ident_or_dot_no_lf (c : ascii) :
  Str.is_ident_char c || Ascii.eqb c "." = true ->
  negb (Ascii.eqb c Str.LF) = true.
Proof.
  destruct c as [[|] [|] [|] [|] [|] [|] [|] [|]]; intros H; try reflexivity;
    discriminate H.
Qed.

Lemma ids_no_lf (ok : string -> bool) (f : option string) :
  (forall s, ok s = true -> Str.all Str.is_ident_char s = true) ->
  optional_ids ok f = true -> Str.no_lf (text f) = true.
Proof.
  intros Hok. destruct f as [s|]; simpl; [|reflexivity].
  intros H. apply (all_impl _ _ _ ident_or_dot_no_lf). apply split_all.
  rewrite forallb_forall in *. intros part Hin.
  apply Hok, H, Hin.
Qed.

Lemma prerelease_id_ident (s : string) :
  prerelease_id s = true -> Str.all Str.is_ident_char s = true.
Proof.
  unfold prerelease_id. now intros [[_ H]%andb_prop _]%andb_prop.
Qed.

Lemma build_id_ident (s : string) :
  build_id s = true -> Str.all Str.is_ident_char s = true.
Proof. unfold build_id. now intros [_ H]%andb_prop. Qed.

Lemma valid_prerelease (v : Version) :
  valid v = true -> Str.no_lf (text (prerelease v)) = true.
Proof.
  unfold valid. intros [H _]%andb_prop.
  exact (ids_no_lf _ _ prerelease_id_ident H).
Qed.

Lemma valid_build (v : Version) :
  valid v = true -> Str.no_lf (text (build v)) = true.
Proof.
  unfold valid. intros [_ H]%andb_prop.
  exact (ids_no_lf _ _ build_id_ident H).
Qed.

Lemma digit_no_lf (c : ascii) :
  Str.is_digit c = true -> negb (Ascii.eqb c Str.LF) = true.
Proof.
  destruct c as [[|] [|] [|] [|] [|] [|] [|] [|]]; intros H; try reflexivity;
    discriminate H.
Qed.

Lemma of_N_no_lf (n : N) : Str.no_lf (Str.of_N n) = true.
Proof. apply (all_impl _ _ _ digit_no_lf), of_N_digits. Qed.

Lemma canonical_version_no_lf (v : Version) :
  valid v = true -> Str.no_lf (canonical_version v) = true.
Proof.
  intros Hv. unfold canonical_version.
  rewrite !no_lf_append, !of_N_no_lf.
  destruct (is_set (prerelease v)); [|reflexivity].
  now rewrite no_lf_append, (valid_prerelease _ Hv).
Qed.

Lemma str_no_lf (v : Version) : valid v = true -> Str.no_lf (str v) = true.
Proof.
  intros Hv. unfold str.
  rewrite !no_lf_append, !of_N_no_lf.
  replace (Str.no_lf
             (if is_set (prerelease v) then "-" ++ text (prerelease v)
              else EmptyString)) with true.
  - destruct (is_set (build v)); [|reflexivity].
    now rewrite no_lf_append, (valid_build _ Hv).
  - destruct (is_set (prerelease v)); [|reflexivity].
    now rewrite no_lf_append, (valid_prerelease _ Hv).
Qed.

(** Every version the library parses is valid. *)
Lemma parse_valid (s : string) (v : Version) :
  parse s = Some v -> valid v = true.
Proof.
  unfold parse.
  destruct (Str.split_first "+" s) as [front bld].
  destruct (Str.split_first "-" front) as [core pre].
  destruct (Str.split "." core) as [|a [|b [|c [|d l]]]]; try discriminate.
  destruct (numeric_id a && numeric_id b && numeric_id c
            && optional_ids prerelease_id pre && optional_ids build_id bld)
    eqn:E; [|discriminate].
  intros [= <-]. unfold valid. simpl.
  apply andb_prop in E as [[_ Hp]%andb_prop Hb]. now rewrite Hp, Hb.
Qed.

(* ===================================================================== *)
(** * The patchers *)
(* ===================================================================== *)

Lemma _update_chart_contents_lines (file : string) (v : Version) :
  _update_chart_contents file v = Str.join (map (chart_line v) (lines_of file)).
Proof. unfold _update_chart_contents. now rewrite patch_loop_lines. Qed.

Lemma _update_openapi_contents_lines (file : string) (v : Version) :
  _update_openapi_contents file v
  = Str.join (map (openapi_line v) (lines_of file)).
Proof. unfold _update_openapi_contents. now rewrite patch_loop_lines. Qed.

(** A rewritten chart line is a whole line. *)
Lemma chart_line_shape (v : Version) (line : string) :
  valid v = true ->
  chart_line v line = line \/ terminated (chart_line v line).
Proof.
  intros Hv. destruct (Re.match_ chart_pattern line) as [m|] eqn:E.
  - right. apply chart_match_inv in E as (rest & [-> | ->]).
    + rewrite chart_line_version.
      exists ("version: " ++ canonical_version v).
      split; [|now rewrite append_assoc].
      now rewrite no_lf_append, canonical_version_no_lf.
    + rewrite chart_line_appVersion.
      exists ("appVersion: " ++ canonical_version v).
      split; [|now rewrite append_assoc].
      now rewrite no_lf_append, canonical_version_no_lf.
  - left. unfold chart_line. now rewrite E.
Qed.

Lemma chart_line_idempotent (v : Version) (line : string) :
  chart_line v (chart_line v line) = chart_line v line.
Proof.
  destruct (Re.match_ chart_pattern line) as [m|] eqn:E.
  - apply chart_match_inv in E as (rest & [-> | ->]).
    + rewrite chart_line_version. apply (chart_line_version v).
    + rewrite chart_line_appVersion. apply (chart_line_appVersion v).
  - unfold chart_line at 2. rewrite E. unfold chart_line. now rewrite E.
Qed.

(** What the OpenAPI patcher writes is a line it matches. *)
Lemma openapi_shape_output (v : Version) (indent : string) :
  run_of Str.is_space indent ->
  openapi_shape indent (indent ++ "version: " ++ str v ++ Str.nl).
Proof.
  intros Hi.
  exists " ", (Str.of_N (major v)), (Str.of_N (minor v)),
    (Str.of_N (patch v)),
    ((if is_set (prerelease v) then "-" ++ text (prerelease v)
      else EmptyString)
     ++ (if is_set (build v) then "+" ++ text (build v) else EmptyString)
     ++ Str.nl).
  split.
  - unfold str. rewrite !append_assoc. reflexivity.
  - repeat split; try apply of_N_truthy; try apply of_N_digits;
      apply Hi.
Qed.

Lemma openapi_line_idempotent (v : Version) (line : string) :
  openapi_line v (openapi_line v line) = openapi_line v line.
Proof.
  destruct (Re.match_ openapi_pattern line) as [m|] eqn:E.
  - apply openapi_match_inv in E as (indent & H).
    rewrite (openapi_line_match v _ _ H).
    apply openapi_line_match, openapi_shape_output.
    destruct H as (gap & d1 & d2 & d3 & rest & _ & Hi & _). exact Hi.
  - unfold openapi_line at 2. rewrite E. unfold openapi_line. now rewrite E.
Qed.

(** A rewritten OpenAPI line is a whole line. *)
Lemma openapi_line_shape (v : Version) (line : string) :
  valid v = true -> terminated line \/ unterminated line ->
  openapi_line v line = line \/ terminated (openapi_line v line).
Proof.
  intros Hv Hline. destruct (Re.match_ openapi_pattern line) as [m|] eqn:E.
  - right. apply openapi_match_inv in E as (indent & H).
    rewrite (openapi_line_match v _ _ H).
    exists (indent ++ "version: " ++ str v).
    split; [|now rewrite !append_assoc].
    rewrite !no_lf_append, (str_no_lf _ Hv).
    change (Str.no_lf "version: ") with true. rewrite !andb_true_r.
    destruct H as (gap & d1 & d2 & d3 & rest & -> & _ & _ & _).
    destruct Hline as [(body & Hb & Hl) | [_ Hl]].
    + eapply no_lf_prefix; [exact Hb | | exact Hl]. reflexivity.
    + eapply no_lf_prefix_unterminated, Hl.
  - left. unfold openapi_line. now rewrite E.
Qed.

(** Rewriting whole lines into whole lines keeps the lines apart: the
    output reads back as the rewritten lines. *)
Lemma rewritten_lines (f : string -> string) (text : string) :
  (forall line, terminated line \/ unterminated line ->
                f line = line \/ terminated (f line)) ->
  lines_of (Str.join (map f (lines_of text))) = map f (lines_of text).
Proof.
  intros Hf. apply lines_of_join, lines_ok_map.
  - intros line H. destruct (Hf line (or_introl H)) as [-> | H']; assumption.
  - intros line H. destruct (Hf line (or_intror H)) as [-> | H']; auto.
  - apply lines_of_ok.
Qed.

Lemma rewritten_twice (f : string -> string) (text : string) :
  (forall line, terminated line \/ unterminated line ->
                f line = line \/ terminated (f line)) ->
  (forall line, f (f line) = f line) ->
  Str.join (map f (lines_of (Str.join (map f (lines_of text)))))
  = Str.join (map f (lines_of text)).
Proof.
  intros Hf Hi. rewrite (rewritten_lines f text Hf), map_map.
  f_equal. apply map_ext. exact Hi.
Qed.

Lemma lines_of_nil (text : string) : lines_of text = [] -> text = EmptyString.
Proof.
  destruct text as [|c text]; simpl; [reflexivity|].
  destruct (Ascii.eqb c Str.LF); [discriminate|].
  destruct (lines_of text); discriminate.
Qed.

(** A text made of whole lines can be read on its own: what follows it
    starts a new line. *)
Lemma lines_of_app (text rest : string) :
  text = EmptyString \/ (exists body, text = body ++ Str.nl) ->
  lines_of (text ++ rest) = (lines_of text ++ lines_of rest)%list.
Proof.
  induction text as [|c text IH]; intros H; [reflexivity|].
  assert (Ht : text = EmptyString /\ c = Str.LF
               \/ exists body, text = body ++ Str.nl).
  { destruct H as [H | (body & H)]; [discriminate|].
    destruct body as [|d body]; simpl in H; injection H as -> ->.
    - now left.
    - right. now exists body. }
  simpl. destruct (Ascii.eqb c Str.LF) eqn:E.
  - rewrite IH; [reflexivity|]. destruct Ht as [[-> _] | Ht]; auto.
  - destruct Ht as [[_ ->] | Ht]; [discriminate|].
    rewrite IH by auto. destruct Ht as (body & ->).
    destruct (lines_of (body ++ Str.nl)) as [|l ls] eqn:El; [|reflexivity].
    apply lines_of_nil in El. destruct body; discriminate.
Qed.

(** ** C4 *)

(** C4. The chart patcher rewrites the lines that start with
    [version:] or [appVersion:] into the key, a colon, a space, the
    canonical tag and a line feed, and returns every other line as it
    was read: the output is the input's lines, rewritten one by one and
    joined in order; a file none of whose lines is rewritten comes back
    as it was; and for a valid version the output reads back as exactly
    as many lines.  The sample chart patched with 1.0.0 is as expected. *)
Theorem chart_patcher_rewrites_matching_lines (file : string) (v : Version) :
  _update_chart_contents file v = Str.join (map (chart_line v) (lines_of file))
  /\ (forall rest,
        chart_line v ("version:" ++ rest)
        = "version: " ++ canonical_version v ++ Str.nl)
  /\ (forall rest,
        chart_line v ("appVersion:" ++ rest)
        = "appVersion: " ++ canonical_version v ++ Str.nl)
  /\ (forall line,
        (forall rest, line <> "version:" ++ rest) ->
        (forall rest, line <> "appVersion:" ++ rest) ->
        chart_line v line = line)
  /\ ((forall line, In line (lines_of file) -> chart_line v line = line) ->
      _update_chart_contents file v = file)
  /\ (valid v = true ->
      lines_of (_update_chart_contents file v)
      = map (chart_line v) (lines_of file))
  /\ _update_chart_contents Sample.chart Sample.v1_0_0 = Sample.chart_patched.
Proof.
  split; [apply _update_chart_contents_lines|].
  split; [apply chart_line_version|].
  split; [apply chart_line_appVersion|].
  split; [apply chart_line_other|].
  split; [|split; [|reflexivity]].
  - intros Hsame. rewrite _update_chart_contents_lines.
    rewrite (map_ext_in _ (fun line => line) _ Hsame), map_id.
    apply join_lines_of.
  - intros Hv. rewrite _update_chart_contents_lines.
    apply rewritten_lines. intros line _. now apply chart_line_shape.
Qed.

Lemma chart_patcher_rewrites_matching_lines_witness :
  valid Sample.v1_0_0 = true
  /\ lines_of (_update_chart_contents Sample.chart Sample.v1_0_0)
     = map (chart_line Sample.v1_0_0) (lines_of Sample.chart).
Proof.
  split; [reflexivity|].
  apply (chart_patcher_rewrites_matching_lines Sample.chart Sample.v1_0_0).
  reflexivity.
Defined.

(** ** C10 *)

(** C10. A line the chart patcher matches is written as the key, a
    colon and a space, the canonical tag and a line feed, whatever
    followed the colon; and a matched last line that had no line feed
    is written with one. *)
Theorem chart_patcher_discards_rest_of_line
    (v : Version) (key rest : string) :
  key = "version" \/ key = "appVersion" ->
  chart_line v (key ++ ":" ++ rest)
  = key ++ ": " ++ canonical_version v ++ Str.nl
  /\ forall text,
       text = EmptyString \/ (exists body, text = body ++ Str.nl) ->
       Str.no_lf rest = true ->
       _update_chart_contents (text ++ key ++ ":" ++ rest) v
       = _update_chart_contents text v
         ++ key ++ ": " ++ canonical_version v ++ Str.nl.
Proof.
  intros Hkey.
  assert (Hline : chart_line v (key ++ ":" ++ rest)
                  = key ++ ": " ++ canonical_version v ++ Str.nl).
  { destruct Hkey as [-> | ->].
    - apply (chart_line_version v rest).
    - apply (chart_line_appVersion v rest). }
  split; [exact Hline|].
  intros text Htext Hrest.
  rewrite !_update_chart_contents_lines, lines_of_app by assumption.
  rewrite map_app, join_app. f_equal.
  rewrite lines_of_unterminated.
  - cbn [map Str.join]. now rewrite Hline, append_nil_r.
  - split; [destruct Hkey as [-> | ->]; reflexivity|].
    rewrite !no_lf_append, Hrest. destruct Hkey as [-> | ->]; reflexivity.
Qed.

Lemma chart_patcher_discards_rest_of_line_witness :
  chart_line Sample.v1_0_0 ("version" ++ ":" ++ "   0.0.0   # old")
  = "version" ++ ": " ++ canonical_version Sample.v1_0_0 ++ Str.nl
  /\ _update_chart_contents
       (("name: x" ++ Str.nl) ++ "version" ++ ":" ++ "   0.0.0   # old")
       Sample.v1_0_0
     = _update_chart_contents ("name: x" ++ Str.nl) Sample.v1_0_0
       ++ "version" ++ ": " ++ canonical_version Sample.v1_0_0 ++ Str.nl.
Proof.
  destruct (chart_patcher_discards_rest_of_line Sample.v1_0_0 "version"
              "   0.0.0   # old" (or_introl eq_refl)) as [H1 H2].
  split; [exact H1|].
  apply H2; [right; now exists "name: x" | reflexivity].
Defined.

(** ** C5 *)

(** C5. Both patchers are idempotent: for every text and every valid
    version, patching the patched text with the same version changes
    nothing. *)
Theorem patchers_idempotent (text : string) (v : Version) :
  valid v = true ->
  _update_chart_contents (_update_chart_contents text v) v
  = _update_chart_contents text v
  /\ _update_openapi_contents (_update_openapi_contents text v) v
     = _update_openapi_contents text v.
Proof.
  intros Hv. split.
  - rewrite (_update_chart_contents_lines text),
      (_update_chart_contents_lines (Str.join _)).
    apply rewritten_twice.
    + intros line _. now apply chart_line_shape.
    + apply chart_line_idempotent.
  - rewrite (_update_openapi_contents_lines text),
      (_update_openapi_contents_lines (Str.join _)).
    apply rewritten_twice.
    + intros line. now apply openapi_line_shape.
    + apply openapi_line_idempotent.
Qed.

Lemma patchers_idempotent_witness :
  valid Sample.v1_1_0_rc1 = true
  /\ _update_chart_contents
       (_update_chart_contents (Sample.chart ++ Sample.openapi_beta)
          Sample.v1_1_0_rc1)
       Sample.v1_1_0_rc1
     = _update_chart_contents (Sample.chart ++ Sample.openapi_beta)
         Sample.v1_1_0_rc1
  /\ _update_openapi_contents
       (_update_openapi_contents (Sample.chart ++ Sample.openapi_beta)
          Sample.v1_1_0_rc1)
       Sample.v1_1_0_rc1
     = _update_openapi_contents (Sample.chart ++ Sample.openapi_beta)
         Sample.v1_1_0_rc1.
Proof.
  split; [reflexivity|].
  apply (patchers_idempotent _ Sample.v1_1_0_rc1). reflexivity.
Defined.

(** ** C2 *)

(** C2, as the specification states it, fails: a line whose value
    carries a suffix after the three numbers is rewritten too. *)
Lemma openapi_patcher_rewrites_suffixed_version :
  _update_openapi_contents Sample.openapi_beta Sample.v1_1_0_rc1
  = Sample.openapi_patched
  /\ _update_openapi_contents Sample.openapi_beta Sample.v1_1_0_rc1
     <> Sample.openapi_beta.
Proof. split; [reflexivity | discriminate]. Qed.

(** C2, amended. The OpenAPI patcher rewrites a line exactly when the
    line starts with white space, [version:], white space and three
    dotted numbers; whatever follows the third number is discarded with
    the old value.  Such a line becomes its indentation, [version: ],
    the full version and a line feed; every other line is returned as
    it was read.  So both sample lines, with and without a suffix,
    become the same patched line. *)
Theorem openapi_patcher_rewrites_version_prefix (file : string) (v : Version) :
  _update_openapi_contents file v
  = Str.join (map (openapi_line v) (lines_of file))
  /\ (forall indent line,
        openapi_shape indent line ->
        openapi_line v line = indent ++ "version: " ++ str v ++ Str.nl)
  /\ (forall line,
        (forall indent, ~ openapi_shape indent line) ->
        openapi_line v line = line)
  /\ _update_openapi_contents Sample.openapi_bare Sample.v1_1_0_rc1
     = Sample.openapi_patched
  /\ _update_openapi_contents Sample.openapi_beta Sample.v1_1_0_rc1
     = Sample.openapi_patched.
Proof.
  split; [apply _update_openapi_contents_lines|].
  split; [apply openapi_line_match|].
  split; [apply openapi_line_other|].
  split; reflexivity.
Qed.

Lemma openapi_patcher_rewrites_version_prefix_witness :
  openapi_shape "  " Sample.openapi_beta
  /\ openapi_line Sample.v1_1_0_rc1 Sample.openapi_beta
     = "  " ++ "version: " ++ str Sample.v1_1_0_rc1 ++ Str.nl.
Proof.
  assert (H : openapi_shape "  " Sample.openapi_beta).
  { exists " ", "1", "0", "0", ("-beta" ++ Str.nl).
    repeat split; reflexivity. }
  split; [exact H|].
  now apply (openapi_patcher_rewrites_version_prefix EmptyString
               Sample.v1_1_0_rc1).
Defined.

(* ===================================================================== *)
(** * Versions on the command line *)
(* ===================================================================== *)

(** ** C8 *)

(** C8. The [--version] action drops a leading [v] and nothing else
    before the value is parsed as a semantic version; the canonical form
    is [v], the three numbers separated by dots, and a hyphen and the
    prerelease exactly when there is one.  So 1.2.3 gives v1.2.3 and
    v1.2.3-rc1 gives v1.2.3-rc1. *)
Theorem version_normalised_then_canonical (env : Env) (w : World) :
  (forall s, SemverNormalizeAction ("v" ++ s) env w = (Ok s, w, []))
  /\ (forall c s, c <> "v"%char ->
        SemverNormalizeAction (String c s) env w = (Ok (String c s), w, []))
  /\ (forall a b c bld,
        canonical_version (mkVersion a b c None bld)
        = "v" ++ Str.of_N a ++ "." ++ Str.of_N b ++ "." ++ Str.of_N c)
  /\ (forall a b c p bld, p <> EmptyString ->
        canonical_version (mkVersion a b c (Some p) bld)
        = "v" ++ Str.of_N a ++ "." ++ Str.of_N b ++ "." ++ Str.of_N c
          ++ "-" ++ p)
  /\ (args <- parse_args (Some "1.2.3") None ;;
      version <- Version_parse (version args) ;;
      ret (canonical_version version)) env w = (Ok "v1.2.3", w, [])
  /\ (args <- parse_args (Some "v1.2.3-rc1") None ;;
      version <- Version_parse (version args) ;;
      ret (canonical_version version)) env w = (Ok "v1.2.3-rc1", w, []).
Proof.
  split; [reflexivity|].
  split.
  { intros c s Hc. unfold SemverNormalizeAction.
    destruct (Ascii.eqb c "v") eqn:E; [|reflexivity].
    apply Ascii.eqb_eq in E. contradiction. }
  split.
  { intros a b c bld. unfold canonical_version. simpl.
    now rewrite !append_nil_r. }
  split;
    [|split; unfold bind at 1; unfold parse_args;
      destruct (version_first env); reflexivity].
  intros a b c p bld Hp. unfold canonical_version. simpl.
  destruct p; [contradiction | reflexivity].
Qed.

Lemma version_normalised_then_canonical_witness :
  SemverNormalizeAction "1.2.3" Sample.env_ok Sample.world
  = (Ok "1.2.3", Sample.world, [])
  /\ canonical_version Sample.v1_2_3_rc1 = "v1.2.3-rc1".
Proof.
  destruct (version_normalised_then_canonical Sample.env_ok Sample.world)
    as (_ & H2 & _ & H4 & _).
  split.
  - apply H2. discriminate.
  - apply (H4 1%N 2%N 3%N "rc1" None). discriminate.
Defined.

(* ===================================================================== *)
(** * The registry *)
(* ===================================================================== *)

(** [index_from] finds the first component of that name. *)
Lemma index_from_found (components : list Component) (step : string) :
  In step (map name components) ->
  forall i,
  exists before c after,
    components = (before ++ c :: after)%list
    /\ name c = step
    /\ (forall b, In b before -> name b <> step)
    /\ index_from i components step = (i + Z.of_nat (List.length before))%Z.
Proof.
  induction components as [|c cs IH]; intros Hin i; [destruct Hin|].
  simpl. destruct (String.eqb (name c) step) eqn:E.
  - apply String.eqb_eq in E. exists [], c, cs.
    repeat split; [assumption | intros b [] | simpl; lia].
  - apply String.eqb_neq in E. destruct Hin as [Hin | Hin]; [contradiction|].
    destruct (IH Hin (i + 1)%Z) as (before & c' & after & -> & Hc & Hb & Hi).
    exists (c :: before), c', after.
    repeat split; [assumption | | simpl List.length; lia].
    intros b [<- | Hb']; auto.
Qed.

Lemma index_from_missing (components : list Component) (step : string) :
  ~ In step (map name components) ->
  forall i, index_from i components step = (-1)%Z.
Proof.
  induction components as [|c cs IH]; intros Hin i; [reflexivity|].
  simpl. destruct (String.eqb (name c) step) eqn:E.
  - apply String.eqb_eq in E. destruct Hin. now left.
  - apply IH. intros H. apply Hin. now right.
Qed.

Lemma slice_from_length {A} (before after : list A) :
  slice_from (Z.of_nat (List.length before)) (before ++ after)%list = after.
Proof.
  unfold slice_from. rewrite length_app.
  destruct (Z.ltb_spec (Z.of_nat (List.length before)) 0); [lia|].
  rewrite Z.min_l by lia. rewrite Nat2Z.id.
  induction before as [|b before IH]; [reflexivity|].
  simpl. apply IH. lia.
Qed.

(** ** C7 *)

(** C7. With no step, [components_from] returns the whole registry, in
    its order.  With the name of a component of the registry, it
    returns that component and all that follow it: from [region], the
    components region, compute, kubernetes and ui. *)
Theorem components_from_is_suffix :
  components_from None = COMPONENTS
  /\ (forall step, In step (map name COMPONENTS) ->
        exists before c after,
          COMPONENTS = (before ++ c :: after)%list
          /\ name c = step
          /\ (forall b, In b before -> name b <> step)
          /\ components_from (Some step) = c :: after)
  /\ map name COMPONENTS
     = ["core"; "identity"; "region"; "compute"; "kubernetes"; "ui"]
  /\ components_from (Some "region") = skipn 2 COMPONENTS
  /\ map name (components_from (Some "region"))
     = ["region"; "compute"; "kubernetes"; "ui"].
Proof.
  split; [reflexivity|].
  split; [|repeat split; reflexivity].
  intros step Hin. unfold components_from.
  destruct (index_from_found COMPONENTS step Hin 0)
    as (before & c & after & E & Hc & Hb & Hi).
  exists before, c, after. repeat split; try assumption.
  rewrite Hi, E. apply slice_from_length.
Qed.

Lemma components_from_is_suffix_witness :
  In "kubernetes" (map name COMPONENTS)
  /\ exists before c after,
       COMPONENTS = (before ++ c :: after)%list
       /\ name c = "kubernetes"
       /\ (forall b, In b before -> name b <> "kubernetes")
       /\ components_from (Some "kubernetes") = c :: after.
Proof.
  assert (H : In "kubernetes" (map name COMPONENTS)).
  { simpl. tauto. }
  split; [exact H|].
  exact (proj1 (proj2 components_from_is_suffix) "kubernetes" H).
Defined.

(** ** C1 *)

(** C1, as the specification states it, fails: for a name that is not
    in the registry the search returns [-1], and the slice from [-1] is
    the list of the last component alone, so that [components_from],
    called with such a name, returns [[ui]]. *)
Theorem components_from_unknown_step :
  index_from 0 COMPONENTS "does-not-exist" = (-1)%Z
  /\ components_from (Some "does-not-exist")
     = [mkComponent "ui" [] (Some ui_npm_update)]
  /\ List.length (components_from (Some "does-not-exist")) = 1.
Proof. repeat split; reflexivity. Qed.

(** The same for every name that is not in the registry. *)
Lemma components_from_missing (step : string) :
  ~ In step (map name COMPONENTS) ->
  components_from (Some step) = [mkComponent "ui" [] (Some ui_npm_update)].
Proof.
  intros H. unfold components_from. now rewrite index_from_missing.
Qed.

(** The choice of [--from-step] is the membership in the registry. *)
Lemma known_step_check (step : string) :
  existsb (String.eqb step) (map name COMPONENTS) = true
  <-> In step (map name COMPONENTS).
Proof.
  rewrite existsb_exists. split.
  - intros (x & Hin & E). apply String.eqb_eq in E. now subst.
  - intros H. exists step. split; [exact H | apply String.eqb_refl].
Qed.

Lemma check_choice_unknown (step : string) (env : Env) (w : World) :
  ~ In step (map name COMPONENTS) ->
  check_choice (Some step) env w = (Raise (SystemExit 2), w, []).
Proof.
  intros Hstep. unfold check_choice.
  destruct (existsb (String.eqb step) (map name COMPONENTS)) eqn:E;
    [|reflexivity].
  apply known_step_check in E. contradiction.
Qed.

Lemma check_choice_ok (step : option string) (env : Env) (w w' : World)
    (t : list event) :
  check_choice step env w = (Ok tt, w', t) ->
  known_step step /\ w' = w /\ t = [].
Proof.
  unfold check_choice. destruct step as [s|].
  - destruct (existsb (String.eqb s) (map name COMPONENTS)) eqn:E;
      [|discriminate].
    intros [= <- <-]. apply known_step_check in E. now repeat split.
  - intros [= <- <-]. now repeat split.
Qed.

(** What the parser returns holds the step it was given, and this step
    has passed the check of the choice. *)
Lemma parse_args_ok (version_arg step : option string) (env : Env)
    (w w' : World) (args : Namespace) (t : list event) :
  parse_args version_arg step env w = (Ok args, w', t) ->
  from_step args = step /\ known_step step.
Proof.
  unfold parse_args. destruct version_arg as [values|].
  - destruct (version_first env).
    + unfold bind at 1.
      destruct (SemverNormalizeAction values env w) as [[[normal|e] w1] t1];
        [|discriminate].
      unfold bind at 1.
      destruct (check_choice step env w1) as [[[[]|e] w2] t2] eqn:Hcheck;
        [|discriminate].
      apply check_choice_ok in Hcheck as [Hstep _].
      unfold ret. now intros [= <- _ _].
    + unfold bind at 1.
      destruct (check_choice step env w) as [[[[]|e] w1] t1] eqn:Hcheck;
        [|discriminate].
      apply check_choice_ok in Hcheck as [Hstep _].
      unfold bind at 1.
      destruct (SemverNormalizeAction values env w1) as [[[normal|e] w2] t2];
        [|discriminate].
      unfold ret. now intros [= <- _ _].
  - unfold bind at 1.
    destruct (check_choice step env w) as [[[[]|e] w1] t1]; discriminate.
Qed.

(** When the parser raises, [main] ends there. *)
Lemma main_parser_raises (version_arg step : option string) (env : Env)
    (w w' : World) (e : exn) (t : list event) :
  parse_args version_arg step env w = (Raise e, w', t) ->
  main version_arg step env w = (Raise e, w', t).
Proof. intros H. unfold main. unfold bind at 1. now rewrite H. Qed.

(** C1, amended. A [--from-step] that names no component of the
    registry is refused on the command line, by the [choices] of the
    option: the parser raises, [main] ends with the same exception
    before the version is read and before [components_from] is called,
    and nothing has been run.  The exception is the exit with status 2
    of the parser, unless an empty [--version] stands first on the
    command line, whose action raises before the step is looked at.
    So whenever the parser returns, the step it hands over is the one
    given, and [components_from] answers it with the whole registry
    when there is none, and with a list that begins at the named
    component otherwise. *)
Theorem unknown_step_stops_at_the_parser (version_arg : option string)
    (step : string) (env : Env) (w : World) :
  ~ In step (map name COMPONENTS) ->
  (exists e,
      parse_args version_arg (Some step) env w = (Raise e, w, [])
      /\ main version_arg (Some step) env w = (Raise e, w, [])
      /\ (version_arg <> Some EmptyString \/ version_first env = false ->
          e = SystemExit 2))
  /\ (forall given args w' t,
        parse_args version_arg given env w = (Ok args, w', t) ->
        from_step args = given
        /\ match given with
           | None => components_from (from_step args) = COMPONENTS
           | Some s =>
               s <> step
               /\ exists c after,
                    components_from (from_step args) = c :: after
                    /\ name c = s
           end).
Proof.
  intros Hstep. split.
  - pose proof (check_choice_unknown step env w Hstep) as Hcheck.
    assert (Hparse : exists e,
               parse_args version_arg (Some step) env w = (Raise e, w, [])
               /\ (version_arg <> Some EmptyString
                   \/ version_first env = false -> e = SystemExit 2)).
    { unfold parse_args. destruct version_arg as [values|].
      - destruct (version_first env).
        + destruct values as [|c rest].
          * exists IndexError. split; [reflexivity|].
            intros [H|H]; [now destruct H | discriminate].
          * exists (SystemExit 2). split; [|reflexivity].
            unfold bind at 1. unfold SemverNormalizeAction.
            destruct (Ascii.eqb c "v"); unfold ret at 1;
              unfold bind at 1; now rewrite Hcheck.
        + exists (SystemExit 2). split; [|reflexivity].
          unfold bind at 1. now rewrite Hcheck.
      - exists (SystemExit 2). split; [|reflexivity].
        unfold bind at 1. now rewrite Hcheck. }
    destruct Hparse as (e & Hparse & He). exists e.
    repeat split; [exact Hparse | now apply main_parser_raises | exact He].
  - intros given args w' t Hparse.
    apply parse_args_ok in Hparse as [Hfrom Hknown].
    split; [exact Hfrom|]. rewrite Hfrom.
    destruct given as [s|]; [|reflexivity].
    split; [intros ->; now apply Hstep|].
    destruct (index_from_found COMPONENTS s Hknown 0)
      as (before & c & after & E & Hc & _ & Hi).
    exists c, after. split; [|exact Hc].
    unfold components_from. rewrite Hi, E. apply slice_from_length.
Qed.

Lemma unknown_step_stops_at_the_parser_witness :
  ~ In "does-not-exist" (map name COMPONENTS)
  /\ main (Some "v1.2.3") (Some "does-not-exist") Sample.env_ok Sample.world
     = (Raise (SystemExit 2), Sample.world, []).
Proof.
  assert (H : ~ In "does-not-exist" (map name COMPONENTS)).
  { simpl. intuition discriminate. }
  split; [exact H|].
  destruct (unknown_step_stops_at_the_parser (Some "v1.2.3") "does-not-exist"
              Sample.env_ok Sample.world H) as [(e & _ & Hmain & He) _].
  rewrite Hmain. rewrite He; [reflexivity|]. left. discriminate.
Defined.

(* ===================================================================== *)
(** * The working directory *)
(* ===================================================================== *)

Lemma resolve_absolute (dir path : string) :
  absolute path = true -> resolve dir path = path.
Proof. unfold resolve. now intros ->. Qed.

(** Going back to an absolute directory that exists. *)
Lemma chdir_back (env : Env) (w : World) (prev : string) :
  absolute prev = true -> is_dir env (files w) prev = true ->
  chdir prev env w = (Ok tt, mkWorld prev (files w) (stdin w), [Chdir prev]).
Proof.
  intros Ha Hd. unfold chdir. now rewrite (resolve_absolute _ _ Ha), Hd.
Qed.

(** ** C9 *)

(** C9. Whatever the block does and however it ends, [pushd] leaves the
    working directory as it found it: when the directory was entered,
    the result is the block's own, returned or raised, and the last
    call made is the change back to the previous directory.  The
    previous directory is the absolute path [os.getcwd()] returned, and
    it is assumed to exist still when the block ends. *)
Theorem pushd_restores_cwd {A : Type} (directory : string) (body : M A)
    (env : Env) (w : World) (r : Result A) (w' : World) (t : list event) :
  absolute (cwd w) = true ->
  (forall fs, is_dir env fs (cwd w) = true) ->
  pushd directory body env w = (r, w', t) ->
  cwd w' = cwd w
  /\ (is_dir env (files w) (resolve (cwd w) directory) = true ->
      exists wb tb,
        body env (mkWorld (resolve (cwd w) directory) (files w) (stdin w))
        = (r, wb, tb)
        /\ w' = mkWorld (cwd w) (files wb) (stdin wb)
        /\ t = (Chdir directory :: tb ++ [Chdir (cwd w)])%list).
Proof.
  intros Ha Hd. unfold pushd, bind, getcwd.
  unfold chdir at 1.
  destruct (is_dir env (files w) (resolve (cwd w) directory)) eqn:E.
  - unfold try_finally.
    destruct (body env _) as [[rb wb] tb].
    rewrite (chdir_back env wb (cwd w) Ha (Hd _)).
    intros [= <- <- <-]. split; [reflexivity|].
    intros _. exists wb, tb. now repeat split.
  - intros [= <- <- <-]. split; [reflexivity | discriminate].
Qed.

Lemma pushd_restores_cwd_witness :
  absolute (cwd Sample.world) = true
  /\ (forall fs, is_dir Sample.env_ok fs (cwd Sample.world) = true)
  /\ cwd (snd (fst (pushd "ui" (print "in ui" ;; raise (A:=unit) EOFError)
                     Sample.env_ok Sample.world)))
     = cwd Sample.world.
Proof.
  split; [reflexivity|]. split; [reflexivity|].
  apply (pushd_restores_cwd "ui" (print "in ui" ;; raise (A:=unit) EOFError)
           Sample.env_ok Sample.world (Raise EOFError) Sample.world
           [Chdir "ui"; Print "in ui"; Chdir "/work"]);
    reflexivity.
Defined.

(* ===================================================================== *)
(** * Releases *)
(* ===================================================================== *)

(** ** C6 *)

(** C6. When the chart pattern matches no file, or more than one, the
    release of the component raises the discovery error right after the
    glob: the only calls made are the two messages, the change into the
    component's directory, the glob and the change back.  No command
    was run and no file written, the world is as it was, and the loop
    over the components stops there with the same error. *)
Theorem release_stops_at_chart_discovery (self : Component) (v : Version)
    (env : Env) (w : World) (later : list Component) :
  absolute (cwd w) = true ->
  is_dir env (files w) (cwd w) = true ->
  is_dir env (files w) (resolve (cwd w) (name self)) = true ->
  List.length (matches_of env (files w) (resolve (cwd w) (name self))
                 "charts/**/Chart.yaml") <> 1 ->
  let error :=
    RuntimeError ("failed to find Chart.yaml for component " ++ name self) in
  let calls :=
    [releasing self; Chdir (name self);
     Print (bold "Updating Helm" ++ " ...");
     Glob (resolve (cwd w) (name self)) "charts/**/Chart.yaml";
     Chdir (cwd w)] in
  release self v env w = (Raise error, w, calls)
  /\ for_each (self :: later) (fun c => release c v) env w
     = (Raise error, w, calls)
  /\ existsb is_check_call calls = false
  /\ existsb is_write calls = false.
Proof.
  intros Ha Hprev Hdir Hglob error calls.
  assert (E : release self v env w = (Raise error, w, calls)).
  { unfold release. unfold bind at 1. unfold print at 1, emit at 1.
    unfold pushd. unfold bind at 1. unfold getcwd.
    unfold bind at 1. unfold chdir at 1. rewrite Hdir.
    unfold try_finally.
    unfold bind at 1. unfold print at 1, emit at 1.
    unfold bind at 1. unfold glob at 1.
    cbn [cwd files stdin].
    unfold bind at 1.
    apply Nat.eqb_neq in Hglob. rewrite Hglob. cbn [negb]. unfold raise.
    rewrite chdir_back by assumption. cbn [files stdin app].
    destruct w; reflexivity. }
  split; [exact E|].
  split; [|split; reflexivity].
  cbn [for_each]. unfold bind at 1. now rewrite E.
Qed.

Lemma release_stops_at_chart_discovery_witness :
  List.length (matches_of Sample.env_two_charts (files Sample.world)
                 "/work/core" "charts/**/Chart.yaml") <> 1
  /\ release (mkComponent "core" [] None) Sample.v1_2_3
       Sample.env_two_charts Sample.world
     = (Raise (RuntimeError "failed to find Chart.yaml for component core"),
        Sample.world,
        [releasing (mkComponent "core" [] None); Chdir "core";
         Print (bold "Updating Helm" ++ " ...");
         Glob "/work/core" "charts/**/Chart.yaml"; Chdir "/work"]).
Proof.
  split; [discriminate|].
  apply (release_stops_at_chart_discovery (mkComponent "core" [] None)
           Sample.v1_2_3 Sample.env_two_charts Sample.world []);
    [reflexivity | reflexivity | reflexivity | discriminate].
Defined.

(** With no chart in any repository, the whole run stops at the first
    release, having run no command but the branch queries. *)
Example main_stops_without_chart :
  Sample.result Sample.run_without_chart
  = Raise (RuntimeError "failed to find Chart.yaml for component core")
  /\ existsb is_check_call (Sample.calls Sample.run_without_chart) = false
  /\ existsb is_write (Sample.calls Sample.run_without_chart) = false.
Proof. vm_compute. repeat split. Qed.

(* ===================================================================== *)
(** * The order of a run *)
(* ===================================================================== *)

(** A loop over the components calls them in order. *)
Lemma for_each_in_order (f : Component -> M unit) (env : Env)
    (cs : list Component) :
  forall w, exists r w' segments,
    in_order f env w cs r w' segments
    /\ for_each cs f env w = (r, w', traces segments).
Proof.
  induction cs as [|c cs IH]; intros w.
  - exists (Ok tt), w, []. split; [constructor | reflexivity].
  - cbn [for_each]. unfold bind at 1.
    destruct (f c env w) as [[[[]|e] w1] t] eqn:E.
    + destruct (IH w1) as (r & w2 & segments & Hord & ->).
      exists r, w2, ((c, t) :: segments).
      split; [now apply in_order_next with w1 | reflexivity].
    + exists (Raise e), w1, [(c, t)].
      split; [now apply in_order_stop|].
      unfold traces. simpl. now rewrite app_nil_r.
Qed.

Lemma in_order_calls (f : Component -> M unit) (env : Env)
    (P : Component -> list event -> Prop) :
  (forall c w r w' t, f c env w = (r, w', t) -> P c t) ->
  forall w cs r w' segments,
    in_order f env w cs r w' segments ->
    Forall (fun s : segment => P (fst s) (snd s)) segments.
Proof.
  intros Hf. induction 1; repeat constructor; eauto.
Qed.

(** The components reached are the first of the list, and all of them
    when the loop returns. *)
Lemma in_order_prefix (f : Component -> M unit) (env : Env) :
  forall w cs r w' segments,
    in_order f env w cs r w' segments ->
    exists rest, cs = (map fst segments ++ rest)%list
                 /\ (forall u, r = Ok u -> rest = []).
Proof.
  induction 1 as [w | w c cs w1 t r w2 segments _ _ (rest & -> & Hr)
                  | w c cs e w1 t _].
  - exists []. split; [reflexivity | reflexivity].
  - exists rest. split; [reflexivity | assumption].
  - exists cs. split; [reflexivity | discriminate].
Qed.

(** How a sequence and a [pushd] block end. *)
Lemma bind_inv {A B : Type} (m : M A) (k : A -> M B) (env : Env) (w : World)
    (r : Result B) (w' : World) (t : list event) :
  bind m k env w = (r, w', t) ->
  (exists a w1 t1 t2,
      m env w = (Ok a, w1, t1) /\ k a env w1 = (r, w', t2)
      /\ t = (t1 ++ t2)%list)
  \/ (exists e, m env w = (Raise e, w', t) /\ r = Raise e).
Proof.
  unfold bind. destruct (m env w) as [[[a|e] w1] t1].
  - destruct (k a env w1) as [[r2 w2] t2] eqn:E. intros [= <- <- <-].
    left. now exists a, w1, t1, t2.
  - intros [= <- <- <-]. right. now exists e.
Qed.

Lemma chdir_calls (directory : string) (env : Env) (w : World)
    (r : Result unit) (w' : World) (t : list event) :
  chdir directory env w = (r, w', t) -> t = [Chdir directory].
Proof.
  unfold chdir. destruct (is_dir env _ _); now intros [= <- <- <-].
Qed.

Lemma pushd_inv {A : Type} (directory : string) (body : M A) (env : Env)
    (w : World) (r : Result A) (w' : World) (t : list event) :
  pushd directory body env w = (r, w', t) ->
  t = [Chdir directory]
  \/ exists rb wb tb,
       body env (mkWorld (resolve (cwd w) directory) (files w) (stdin w))
       = (rb, wb, tb)
       /\ t = (Chdir directory :: tb ++ [Chdir (cwd w)])%list.
Proof.
  unfold pushd, bind, getcwd. unfold chdir at 1.
  destruct (is_dir env (files w) (resolve (cwd w) directory)).
  - unfold try_finally. destruct (body env _) as [[rb wb] tb].
    destruct (chdir (cwd w) env wb) as [[rc wc] tc] eqn:E.
    apply chdir_calls in E as ->.
    destruct rc; intros [= <- <- <-]; right; now exists rb, wb, tb.
  - intros [= <- <- <-]. now left.
Qed.

Lemma validate_calls (c : Component) (env : Env) (w : World)
    (r : Result unit) (w' : World) (t : list event) :
  validate c env w = (r, w', t) -> validation_calls c t.
Proof.
  unfold validate. intros H.
  apply bind_inv in H as [(a & w1 & t1 & t2 & Hp & H & ->) | (e & Hp & _)];
    [|discriminate Hp].
  injection Hp as _ <- <-.
  apply pushd_inv in H as [-> | (rb & wb & tb & H & ->)]; [now left|].
  right. exists (resolve (cwd w) (name c)), (cwd w).
  assert (tb = [CheckOutput (resolve (cwd w) (name c)) git_branch])
    as -> ; [|reflexivity].
  apply bind_inv in H as [(out & w2 & t3 & t4 & Hc & H & ->) | (e & Hc & _)];
    unfold check_output in Hc; cbn [cwd files stdin] in Hc;
    destruct (returncode _ =? 0)%Z; try discriminate Hc.
  - injection Hc as _ _ <-.
    destruct (negb _); injection H as _ _ <-; reflexivity.
  - now injection Hc as _ _ <-.
Qed.

Lemma release_calls_start (c : Component) (v : Version) (env : Env)
    (w : World) (r : Result unit) (w' : World) (t : list event) :
  release c v env w = (r, w', t) -> release_calls c t.
Proof.
  unfold release. intros H.
  apply bind_inv in H as [(a & w1 & t1 & t2 & Hp & H & ->) | (e & Hp & _)];
    [|discriminate Hp].
  injection Hp as _ <- <-.
  apply pushd_inv in H as [-> | (rb & wb & tb & _ & ->)].
  - now exists [].
  - now exists (tb ++ [Chdir (cwd w)])%list.
Qed.

(** ** C3 *)

(** C3, as the specification states it, fails: in a run from
    [kubernetes], the validation of [ui], the later component, comes
    right after the validation of [kubernetes] and before every call of
    the release of [kubernetes], whose chart is patched only then. *)
Lemma validation_of_later_component_precedes_release :
  map name (components_from (Some "kubernetes")) = ["kubernetes"; "ui"]
  /\ nth_error (Sample.calls Sample.run_from_kubernetes) 2
     = Some (CheckOutput "/work/kubernetes" git_branch)
  /\ nth_error (Sample.calls Sample.run_from_kubernetes) 4
     = Some (validating (mkComponent "ui" [] (Some ui_npm_update)))
  /\ nth_error (Sample.calls Sample.run_from_kubernetes) 6
     = Some (CheckOutput "/work/ui" git_branch)
  /\ nth_error (Sample.calls Sample.run_from_kubernetes) 8
     = Some (releasing (mkComponent "kubernetes"
                          ["core"; "identity"; "region"] None))
  /\ nth_error (Sample.calls Sample.run_from_kubernetes) 11
     = Some (Glob "/work/kubernetes" "charts/**/Chart.yaml").
Proof. vm_compute. repeat split. Qed.

(** C3, amended. A run first validates every component, in the order
    of the list, and only when all validations have returned does it
    release the components, in the same order: each release starts in
    the world the previous one left, after the previous one returned,
    and the first failure ends the run.  The calls of the run are the
    calls of the validations, one component after the other, followed
    by the calls of the releases, one component after the other. *)
Theorem run_validates_all_then_releases_in_order
    (cs : list Component) (v : Version) (env : Env) (w : World) :
  exists rv wv validations,
    in_order validate env w cs rv wv validations
    /\ Forall (fun s : segment => validation_calls (fst s) (snd s)) validations
    /\ match rv with
       | Raise e => run cs v env w = (Raise e, wv, traces validations)
       | Ok _ =>
           map fst validations = cs
           /\ exists r w' releases,
                in_order (fun c => release c v) env wv cs r w' releases
                /\ Forall (fun s : segment => release_calls (fst s) (snd s))
                     releases
                /\ run cs v env w
                   = (r, w', (traces validations ++ traces releases)%list)
       end.
Proof.
  destruct (for_each_in_order validate env cs w)
    as (rv & wv & validations & Hv & Ev).
  exists rv, wv, validations. split; [exact Hv|]. split.
  { apply (in_order_calls validate env validation_calls) in Hv; [exact Hv|].
    intros c w0 r w' t. apply validate_calls. }
  unfold run, bind. rewrite Ev. destruct rv as [u|e]; [|reflexivity].
  split.
  { destruct (in_order_prefix _ _ _ _ _ _ _ Hv) as (rest & E & Hr).
    rewrite (Hr u eq_refl), app_nil_r in E. now symmetry. }
  destruct (for_each_in_order (fun c => release c v) env cs wv)
    as (r & w' & releases & Hr & Er).
  exists r, w', releases. split; [exact Hr|]. split.
  { apply (in_order_calls _ env release_calls) in Hr; [exact Hr|].
    intros c w0 r0 w0' t. apply release_calls_start. }
  now rewrite Er.
Qed.

(* ===================================================================== *)
(** * Beyond the claims: the working directory and the validation *)
(* ===================================================================== *)

(** X1. When the directory cannot be entered, [pushd] raises the error
    of [os.chdir] without running the block: nothing but the failed
    change of directory happens, and the world is untouched. *)
Theorem pushd_missing_directory {A : Type} (directory : string) (body : M A)
    (env : Env) (w : World) :
  is_dir env (files w) (resolve (cwd w) directory) = false ->
  pushd directory body env w
  = (Raise (OSError directory), w, [Chdir directory]).
Proof.
  intros H. unfold pushd, bind, getcwd. unfold chdir at 1. now rewrite H.
Qed.

Lemma pushd_missing_directory_witness :
  is_dir env_no_directory (files Sample.world) (resolve (cwd Sample.world) "ui")
  = false
  /\ pushd "ui" (check_call ["git"; "pull"]) env_no_directory Sample.world
     = (Raise (OSError "ui"), Sample.world, [Chdir "ui"]).
Proof.
  split; [reflexivity|].
  apply (pushd_missing_directory "ui" (check_call ["git"; "pull"])
           env_no_directory Sample.world).
  reflexivity.
Defined.

(** White space around the answer of git does not matter. *)
Lemma lstrip_spaces (a s : string) :
  Str.all Str.is_space a = true -> Str.lstrip (a ++ s) = Str.lstrip s.
Proof.
  induction a as [|c a IH]; simpl; [reflexivity|].
  intros [Hc Ha]%andb_prop. rewrite Hc. now apply IH.
Qed.

Lemma rstrip_spaces (b : string) :
  Str.all Str.is_space b = true -> Str.rstrip b = EmptyString.
Proof.
  induction b as [|c b IH]; simpl; [reflexivity|].
  intros [Hc Hb]%andb_prop. now rewrite (IH Hb), Hc.
Qed.

Lemma strip_padded_main (a b : string) :
  Str.all Str.is_space a = true -> Str.all Str.is_space b = true ->
  Str.strip (a ++ "main" ++ b) = "main".
Proof.
  intros Ha Hb. unfold Str.strip. rewrite (lstrip_spaces _ _ Ha).
  simpl. now rewrite (rstrip_spaces _ Hb).
Qed.

(** X2. In a checkout where the component's directory exists,
    [validate] asks git for the current branch there and returns
    exactly when git succeeds and answers [main], white space around
    the answer aside; it raises the error of the command when git
    fails, and a [RuntimeError] naming the component for any other
    branch.  In all three cases it has made the same four calls and
    the working directory is the one it started from. *)
Theorem validate_outcome (self : Component) (env : Env) (w : World) :
  absolute (cwd w) = true ->
  (forall fs, is_dir env fs (cwd w) = true) ->
  is_dir env (files w) (resolve (cwd w) (name self)) = true ->
  let dir := resolve (cwd w) (name self) in
  let done := spawn env (files w) dir git_branch in
  validate self env w
  = (if (returncode done =? 0)%Z
     then if String.eqb (Str.strip (stdout done)) "main" then Ok tt
          else Raise (RuntimeError ("component " ++ name self
                                    ++ " is not checked out to main"))
     else Raise (CalledProcessError git_branch),
     mkWorld (cwd w) (after done) (stdin w),
     [validating self; Chdir (name self); CheckOutput dir git_branch;
      Chdir (cwd w)])
  /\ forall a b,
       Str.all Str.is_space a = true -> Str.all Str.is_space b = true ->
       Str.strip (a ++ "main" ++ b) = "main".
Proof.
  intros Ha Hprev Hdir dir done. split; [|apply strip_padded_main].
  unfold validate. unfold bind at 1. unfold print at 1, emit at 1.
  unfold pushd. unfold bind at 1. unfold getcwd.
  unfold bind at 1. unfold chdir at 1. rewrite Hdir.
  unfold try_finally. unfold bind at 1. unfold check_output.
  cbn [cwd files stdin]. fold dir. fold git_branch. fold done.
  destruct (returncode done =? 0)%Z.
  - destruct (String.eqb (Str.strip (stdout done)) "main"); cbn [negb];
      unfold ret, raise; rewrite chdir_back by auto; reflexivity.
  - rewrite chdir_back by auto. reflexivity.
Qed.

Lemma validate_outcome_witness :
  validate (mkComponent "core" [] None) env_feature_branch Sample.world
  = (Raise (RuntimeError "component core is not checked out to main"),
     Sample.world,
     [validating (mkComponent "core" [] None); Chdir "core";
      CheckOutput "/work/core" git_branch; Chdir "/work"]).
Proof.
  apply (validate_outcome (mkComponent "core" [] None) env_feature_branch
           Sample.world); reflexivity.
Defined.

(* ===================================================================== *)
(** * Beyond the claims: the files *)
(* ===================================================================== *)

(** Reading a file and writing back what [patch] makes of it. *)
Lemma patch_file_found (patch : TextIO -> string) (path : string) (env : Env)
    (w : World) (old : string) :
  files w (resolve (cwd w) path) = Some old ->
  (chart <- open_r path ;; open_w_write path (patch chart)) env w
  = (Ok tt,
     mkWorld (cwd w)
       (fun p => if String.eqb p (resolve (cwd w) path)
                 then Some (patch (Str.universal_newlines old))
                 else files w p)
       (stdin w),
     [Read path; Write path (patch (Str.universal_newlines old))]).
Proof.
  intros H. unfold bind, open_r, open_w_write. now rewrite H.
Qed.

Lemma patch_file_missing (patch : TextIO -> string) (path : string) (env : Env)
    (w : World) :
  files w (resolve (cwd w) path) = None ->
  (chart <- open_r path ;; open_w_write path (patch chart)) env w
  = (Raise (OSError path), w, [Read path]).
Proof.
  intros H. unfold bind, open_r. now rewrite H.
Qed.

(** X3. [_update_chart] and [_update_openapi] replace the contents of
    the file at [path], read with universal newlines, by the patched
    text: afterwards that file holds the patched text, every other file
    is what it was, and so are the working directory and the input. *)
Theorem updaters_rewrite_one_file (path : string) (v : Version) (env : Env)
    (w : World) (old : string) :
  files w (resolve (cwd w) path) = Some old ->
  (exists w',
      _update_chart path v env w
      = (Ok tt, w',
         [Read path;
          Write path (_update_chart_contents (Str.universal_newlines old) v)])
      /\ files w' (resolve (cwd w) path)
         = Some (_update_chart_contents (Str.universal_newlines old) v)
      /\ (forall p, p <> resolve (cwd w) path -> files w' p = files w p)
      /\ cwd w' = cwd w /\ stdin w' = stdin w)
  /\ (exists w',
      _update_openapi path v env w
      = (Ok tt, w',
         [Read path;
          Write path (_update_openapi_contents (Str.universal_newlines old) v)])
      /\ files w' (resolve (cwd w) path)
         = Some (_update_openapi_contents (Str.universal_newlines old) v)
      /\ (forall p, p <> resolve (cwd w) path -> files w' p = files w p)
      /\ cwd w' = cwd w /\ stdin w' = stdin w).
Proof.
  intros H. split; eexists.
  - split; [exact (patch_file_found
                     (fun chart => _update_chart_contents chart v) _ env _ _ H)|].
    cbn [files cwd stdin]. rewrite String.eqb_refl.
    split; [reflexivity|]. split; [|split; reflexivity].
    intros p Hp. apply String.eqb_neq in Hp. now rewrite Hp.
  - split; [exact (patch_file_found
                     (fun chart => _update_openapi_contents chart v) _ env _ _
                     H)|].
    cbn [files cwd stdin]. rewrite String.eqb_refl.
    split; [reflexivity|]. split; [|split; reflexivity].
    intros p Hp. apply String.eqb_neq in Hp. now rewrite Hp.
Qed.

Lemma updaters_rewrite_one_file_witness :
  files Sample.world (resolve (cwd Sample.world) "Chart.yaml")
  = Some Sample.chart
  /\ exists w',
       _update_chart "Chart.yaml" Sample.v1_0_0 Sample.env_ok Sample.world
       = (Ok tt, w', [Read "Chart.yaml"; Write "Chart.yaml" Sample.chart_patched])
       /\ files w' "/work/Chart.yaml" = Some Sample.chart_patched.
Proof.
  split; [reflexivity|].
  destruct (updaters_rewrite_one_file "Chart.yaml" Sample.v1_0_0 Sample.env_ok
              Sample.world Sample.chart eq_refl)
    as [(w' & E & Hf & _) _].
  exists w'. split; [exact E | exact Hf].
Defined.

(** X4. When the file does not exist, both updaters raise the error of
    [open] after the attempt to read it: nothing is written and the
    world is untouched. *)
Theorem updaters_missing_file (path : string) (v : Version) (env : Env)
    (w : World) :
  files w (resolve (cwd w) path) = None ->
  _update_chart path v env w = (Raise (OSError path), w, [Read path])
  /\ _update_openapi path v env w = (Raise (OSError path), w, [Read path]).
Proof.
  intros H. split.
  - exact (patch_file_missing (fun chart => _update_chart_contents chart v)
             _ env _ H).
  - exact (patch_file_missing (fun chart => _update_openapi_contents chart v)
             _ env _ H).
Qed.

Lemma updaters_missing_file_witness :
  files world_no_file (resolve (cwd world_no_file) "Chart.yaml") = None
  /\ _update_chart "Chart.yaml" Sample.v1_0_0 Sample.env_ok world_no_file
     = (Raise (OSError "Chart.yaml"), world_no_file, [Read "Chart.yaml"]).
Proof.
  split; [reflexivity|].
  apply (updaters_missing_file "Chart.yaml" Sample.v1_0_0 Sample.env_ok
           world_no_file).
  reflexivity.
Defined.

(** What is read with universal newlines holds no carriage return, and
    a text that holds none is read as it is. *)
Lemma universal_newlines_cr (d : ascii) (s : string) :
  Str.universal_newlines (String Str.CR (String d s))
  = String Str.LF (if Ascii.eqb d Str.LF then Str.universal_newlines s
                   else Str.universal_newlines (String d s)).
Proof.
  change (Str.universal_newlines (String Str.CR (String d s)))
    with (if Ascii.eqb d Str.LF then String Str.LF (Str.universal_newlines s)
          else String Str.LF (Str.universal_newlines (String d s))).
  now destruct (Ascii.eqb d Str.LF).
Qed.

Lemma universal_newlines_other (c : ascii) (s : string) :
  Ascii.eqb c Str.CR = false ->
  Str.universal_newlines (String c s) = String c (Str.universal_newlines s).
Proof. intros H. simpl. now rewrite H. Qed.

Lemma universal_newlines_no_cr_bounded (n : nat) :
  forall s, String.length s <= n -> no_cr (Str.universal_newlines s) = true.
Proof.
  induction n as [|n IH]; intros s Hn.
  - destruct s; [reflexivity | simpl in Hn; lia].
  - destruct s as [|c s]; [reflexivity|]. simpl in Hn.
    destruct (Ascii.eqb c Str.CR) eqn:Ec.
    + apply Ascii.eqb_eq in Ec as ->.
      destruct s as [|d s]; [reflexivity|]. simpl in Hn.
      rewrite universal_newlines_cr.
      change (no_cr (String Str.LF ?x)) with (no_cr x).
      destruct (Ascii.eqb d Str.LF); apply IH; simpl; lia.
    + rewrite (universal_newlines_other _ _ Ec).
      change (no_cr (String c ?x)) with (not_cr c && no_cr x).
      unfold not_cr at 1. rewrite Ec. apply IH. lia.
Qed.

Lemma universal_newlines_no_cr (s : string) :
  no_cr (Str.universal_newlines s) = true.
Proof. now apply (universal_newlines_no_cr_bounded (String.length s)). Qed.

Lemma universal_newlines_id (s : string) :
  no_cr s = true -> Str.universal_newlines s = s.
Proof.
  induction s as [|c s IH]; [reflexivity|].
  unfold no_cr, not_cr. simpl. fold not_cr. fold (no_cr s).
  intros [Hc Hs]%andb_prop. apply negb_true_iff in Hc. rewrite Hc.
  now rewrite (IH Hs).
Qed.

(** A class that holds for every character of the lines holds for the
    text, and conversely. *)
Lemma all_join (q : ascii -> bool) (lines : list string) :
  Str.all q (Str.join lines) = forallb (Str.all q) lines.
Proof.
  induction lines as [|l ls IH]; simpl; [reflexivity|].
  now rewrite all_append, IH.
Qed.

Lemma all_lines_of (q : ascii -> bool) (text : string) :
  forallb (Str.all q) (lines_of text) = Str.all q text.
Proof. now rewrite <- all_join, join_lines_of. Qed.

Lemma forallb_map_all (q : ascii -> bool) (f : string -> string)
    (lines : list string) :
  (forall line, Str.all q line = true -> Str.all q (f line) = true) ->
  forallb (Str.all q) lines = true ->
  forallb (Str.all q) (map f lines) = true.
Proof.
  intros Hf. induction lines as [|l ls IH]; simpl; [reflexivity|].
  intros [Hl Hls]%andb_prop. now rewrite (Hf _ Hl), (IH Hls).
Qed.

(** The characters of a valid version. *)
Lemma ids_all (q : ascii -> bool) (ok : string -> bool) (f : option string) :
  (forall c, Str.is_ident_char c || Ascii.eqb c "." = true -> q c = true) ->
  (forall s, ok s = true -> Str.all Str.is_ident_char s = true) ->
  optional_ids ok f = true -> Str.all q (text f) = true.
Proof.
  intros Hq Hok. destruct f as [s|]; simpl; [|reflexivity].
  intros H. apply (all_impl _ _ _ Hq). apply split_all.
  rewrite forallb_forall in *. intros part Hin. apply Hok, H, Hin.
Qed.

Lemma digit_ident_or_dot (c : ascii) :
  Str.is_digit c = true -> Str.is_ident_char c || Ascii.eqb c "." = true.
Proof. unfold Str.is_ident_char. now intros ->. Qed.

Lemma of_N_all (q : ascii -> bool) (n : N) :
  (forall c, Str.is_ident_char c || Ascii.eqb c "." = true -> q c = true) ->
  Str.all q (Str.of_N n) = true.
Proof.
  intros Hq. apply (all_impl Str.is_digit); [|apply of_N_digits].
  intros c Hc. apply Hq, digit_ident_or_dot, Hc.
Qed.

Lemma canonical_version_all (q : ascii -> bool) (v : Version) :
  (forall c, Str.is_ident_char c || Ascii.eqb c "." = true -> q c = true) ->
  valid v = true -> Str.all q (canonical_version v) = true.
Proof.
  intros Hq Hv. unfold canonical_version.
  rewrite !all_append, !(of_N_all q _ Hq).
  replace (Str.all q "v") with true by (symmetry; simpl; now rewrite Hq).
  replace (Str.all q ".") with true by (symmetry; simpl; now rewrite Hq).
  simpl. destruct (is_set (prerelease v)); [|reflexivity].
  simpl. rewrite (Hq "-"%char eq_refl). simpl.
  unfold valid in Hv. apply andb_prop in Hv as [Hp _].
  exact (ids_all q _ _ Hq prerelease_id_ident Hp).
Qed.

Lemma str_all (q : ascii -> bool) (v : Version) :
  (forall c, Str.is_ident_char c || Ascii.eqb c "." = true -> q c = true) ->
  q "+"%char = true ->
  valid v = true -> Str.all q (str v) = true.
Proof.
  intros Hq Hplus Hv. unfold str.
  rewrite !all_append, !(of_N_all q _ Hq).
  replace (Str.all q ".") with true by (symmetry; simpl; now rewrite Hq).
  unfold valid in Hv. apply andb_prop in Hv as [Hp Hb].
  replace (Str.all q (if is_set (prerelease v)
                      then "-" ++ text (prerelease v) else EmptyString))
    with true.
  - simpl. destruct (is_set (build v)); [|reflexivity].
    simpl. rewrite Hplus. simpl.
    exact (ids_all q _ _ Hq build_id_ident Hb).
  - symmetry. destruct (is_set (prerelease v)); [|reflexivity].
    simpl. rewrite (Hq "-"%char eq_refl). simpl.
    exact (ids_all q _ _ Hq prerelease_id_ident Hp).
Qed.

Lemma ident_or_dot_not_cr (c : ascii) :
  Str.is_ident_char c || Ascii.eqb c "." = true -> not_cr c = true.
Proof.
  destruct c as [[|] [|] [|] [|] [|] [|] [|] [|]]; intros H; try reflexivity;
    discriminate H.
Qed.

(** The patchers bring no carriage return into a text that has none. *)
Lemma chart_line_no_cr (v : Version) (line : string) :
  valid v = true -> no_cr line = true -> no_cr (chart_line v line) = true.
Proof.
  intros Hv Hl. destruct (Re.match_ chart_pattern line) as [m|] eqn:E.
  - unfold no_cr.
    apply chart_match_inv in E as (rest & [-> | ->]).
    + rewrite chart_line_version, !all_append,
        (canonical_version_all _ _ ident_or_dot_not_cr Hv). reflexivity.
    + rewrite chart_line_appVersion, !all_append,
        (canonical_version_all _ _ ident_or_dot_not_cr Hv). reflexivity.
  - unfold chart_line. now rewrite E.
Qed.

Lemma openapi_line_no_cr (v : Version) (line : string) :
  valid v = true -> no_cr line = true -> no_cr (openapi_line v line) = true.
Proof.
  intros Hv Hl. destruct (Re.match_ openapi_pattern line) as [m|] eqn:E.
  - apply openapi_match_inv in E as (indent & H).
    rewrite (openapi_line_match v _ _ H).
    destruct H as (gap & d1 & d2 & d3 & rest & -> & _).
    unfold no_cr in *. rewrite all_append in Hl.
    apply andb_prop in Hl as [Hi _].
    rewrite !all_append, Hi,
      (str_all _ _ ident_or_dot_not_cr eq_refl Hv). reflexivity.
  - unfold openapi_line. now rewrite E.
Qed.

Lemma patched_no_cr (f : string -> string) (text : string) :
  (forall line, no_cr line = true -> no_cr (f line) = true) ->
  no_cr text = true -> no_cr (Str.join (map f (lines_of text))) = true.
Proof.
  intros Hf Ht. unfold no_cr in *. rewrite all_join.
  apply forallb_map_all; [exact Hf|]. now rewrite all_lines_of.
Qed.

Lemma patch_file_twice (patch : TextIO -> string) (path : string) (env : Env)
    (w : World) (old : string) :
  (forall text, no_cr text = true -> no_cr (patch text) = true) ->
  (forall text, patch (patch text) = patch text) ->
  files w (resolve (cwd w) path) = Some old ->
  exists w1 w2,
    (chart <- open_r path ;; open_w_write path (patch chart)) env w
    = (Ok tt, w1,
       [Read path; Write path (patch (Str.universal_newlines old))])
    /\ (chart <- open_r path ;; open_w_write path (patch chart)) env w1
       = (Ok tt, w2,
          [Read path; Write path (patch (Str.universal_newlines old))])
    /\ (forall p, files w2 p = files w1 p)
    /\ cwd w2 = cwd w1 /\ stdin w2 = stdin w1.
Proof.
  intros Hcr Hidem Hold.
  set (patched := patch (Str.universal_newlines old)).
  set (w1 := mkWorld (cwd w)
               (fun p => if String.eqb p (resolve (cwd w) path)
                         then Some patched else files w p)
               (stdin w)).
  assert (Hsame : patch (Str.universal_newlines patched) = patched).
  { unfold patched. rewrite universal_newlines_id; [apply Hidem|].
    apply Hcr, universal_newlines_no_cr. }
  assert (H1 : files w1 (resolve (cwd w1) path) = Some patched).
  { cbn [files cwd w1]. now rewrite String.eqb_refl. }
  pose proof (patch_file_found patch path env w1 patched H1) as H2.
  rewrite Hsame in H2.
  exists w1. eexists. split; [exact (patch_file_found patch path env w old Hold)|].
  split; [exact H2|].
  cbn [files cwd stdin w1]. repeat split.
  intros p. now destruct (String.eqb p (resolve (cwd w) path)).
Qed.

Lemma _update_chart_contents_twice (v : Version) (text : string) :
  valid v = true ->
  _update_chart_contents (_update_chart_contents text v) v
  = _update_chart_contents text v.
Proof.
  intros Hv.
  rewrite (_update_chart_contents_lines text),
    (_update_chart_contents_lines (Str.join _)).
  apply rewritten_twice.
  - intros line _. now apply chart_line_shape.
  - apply chart_line_idempotent.
Qed.

Lemma _update_openapi_contents_twice (v : Version) (text : string) :
  valid v = true ->
  _update_openapi_contents (_update_openapi_contents text v) v
  = _update_openapi_contents text v.
Proof.
  intros Hv.
  rewrite (_update_openapi_contents_lines text),
    (_update_openapi_contents_lines (Str.join _)).
  apply rewritten_twice.
  - intros line. now apply openapi_line_shape.
  - apply openapi_line_idempotent.
Qed.

(** X5. Updating a file twice is updating it once: for a valid version,
    a second call of [_update_chart], or of [_update_openapi], on the
    file the first call wrote reads it, writes the same text again and
    leaves every file as the first call left it.  This is what makes a
    release safe to run again after a failure. *)
Theorem updaters_idempotent_on_disk (path : string) (v : Version) (env : Env)
    (w : World) (old : string) :
  valid v = true ->
  files w (resolve (cwd w) path) = Some old ->
  (exists w1 w2 patched,
      _update_chart path v env w
      = (Ok tt, w1, [Read path; Write path patched])
      /\ _update_chart path v env w1
         = (Ok tt, w2, [Read path; Write path patched])
      /\ (forall p, files w2 p = files w1 p)
      /\ cwd w2 = cwd w1 /\ stdin w2 = stdin w1)
  /\ (exists w1 w2 patched,
      _update_openapi path v env w
      = (Ok tt, w1, [Read path; Write path patched])
      /\ _update_openapi path v env w1
         = (Ok tt, w2, [Read path; Write path patched])
      /\ (forall p, files w2 p = files w1 p)
      /\ cwd w2 = cwd w1 /\ stdin w2 = stdin w1).
Proof.
  intros Hv Hold. split.
  - destruct (patch_file_twice (fun chart => _update_chart_contents chart v)
                path env w old) as (w1 & w2 & H); [| |exact Hold|].
    + intros text Ht. rewrite _update_chart_contents_lines.
      apply patched_no_cr; [|exact Ht]. intros line. now apply chart_line_no_cr.
    + intros text. now apply _update_chart_contents_twice.
    + now exists w1, w2, (_update_chart_contents (Str.universal_newlines old) v).
  - destruct (patch_file_twice (fun chart => _update_openapi_contents chart v)
                path env w old) as (w1 & w2 & H); [| |exact Hold|].
    + intros text Ht. rewrite _update_openapi_contents_lines.
      apply patched_no_cr; [|exact Ht].
      intros line. now apply openapi_line_no_cr.
    + intros text. now apply _update_openapi_contents_twice.
    + now exists w1, w2,
        (_update_openapi_contents (Str.universal_newlines old) v).
Qed.

Lemma updaters_idempotent_on_disk_witness :
  valid Sample.v1_1_0_rc1 = true
  /\ files Sample.world (resolve (cwd Sample.world) "Chart.yaml")
     = Some Sample.chart
  /\ exists w1 w2 patched,
       _update_chart "Chart.yaml" Sample.v1_1_0_rc1 Sample.env_ok Sample.world
       = (Ok tt, w1, [Read "Chart.yaml"; Write "Chart.yaml" patched])
       /\ _update_chart "Chart.yaml" Sample.v1_1_0_rc1 Sample.env_ok w1
          = (Ok tt, w2, [Read "Chart.yaml"; Write "Chart.yaml" patched])
       /\ (forall p, files w2 p = files w1 p)
       /\ cwd w2 = cwd w1 /\ stdin w2 = stdin w1.
Proof.
  split; [reflexivity|]. split; [reflexivity|].
  exact (proj1 (updaters_idempotent_on_disk "Chart.yaml" Sample.v1_1_0_rc1
                  Sample.env_ok Sample.world Sample.chart eq_refl eq_refl)).
Defined.

(* ===================================================================== *)
(** * Beyond the claims: what a computation is confined to *)
(* ===================================================================== *)

Section Confined.

Variable P : event -> bool.

Lemma emits_only_ret {A : Type} (a : A) : emits_only P (ret a).
Proof. intros env w. reflexivity. Qed.

Lemma emits_only_raise {A : Type} (e : exn) : emits_only P (@raise A e).
Proof. intros env w. reflexivity. Qed.

Lemma emits_only_bind {A B : Type} (m : M A) (k : A -> M B) :
  emits_only P m -> (forall a, emits_only P (k a)) ->
  emits_only P (bind m k).
Proof.
  intros Hm Hk env w. unfold bind. specialize (Hm env w).
  destruct (m env w) as [[[a|e] w1] t1]; simpl in Hm; [|exact Hm].
  specialize (Hk a env w1). destruct (k a env w1) as [[r w2] t2].
  simpl in *. now rewrite forallb_app, Hm, Hk.
Qed.

Lemma emits_only_print (text : string) :
  P (Print text) = true -> emits_only P (print text).
Proof. intros H env w. simpl. now rewrite H. Qed.

Lemma emits_only_getcwd : emits_only P getcwd.
Proof. intros env w. reflexivity. Qed.

Lemma emits_only_chdir (directory : string) :
  P (Chdir directory) = true -> emits_only P (chdir directory).
Proof.
  intros H env w. unfold chdir. destruct (is_dir env _ _); simpl;
    now rewrite H.
Qed.

Lemma emits_only_glob (pattern : string) :
  (forall dir, P (Glob dir pattern) = true) -> emits_only P (glob pattern).
Proof. intros H env w. simpl. now rewrite H. Qed.

Lemma emits_only_check_call (args : list string) :
  (forall dir, P (CheckCall dir args) = true) ->
  emits_only P (check_call args).
Proof.
  intros H env w. unfold check_call.
  destruct (returncode _ =? 0)%Z; simpl; now rewrite H.
Qed.

Lemma emits_only_check_output (args : list string) :
  (forall dir, P (CheckOutput dir args) = true) ->
  emits_only P (check_output args).
Proof.
  intros H env w. unfold check_output.
  destruct (returncode _ =? 0)%Z; simpl; now rewrite H.
Qed.

Lemma emits_only_open_r (path : string) :
  P (Read path) = true -> emits_only P (open_r path).
Proof.
  intros H env w. unfold open_r. destruct (files w _); simpl; now rewrite H.
Qed.

Lemma emits_only_open_w_write (path contents : string) :
  P (Write path contents) = true -> emits_only P (open_w_write path contents).
Proof. intros H env w. simpl. now rewrite H. Qed.

Lemma emits_only_input (prompt : string) :
  P (Input prompt) = true -> emits_only P (input prompt).
Proof.
  intros H env w. unfold input. destruct (stdin w); simpl; now rewrite H.
Qed.

Lemma emits_only_try_finally {A : Type} (body : M A) (cleanup : M unit) :
  emits_only P body -> emits_only P cleanup ->
  emits_only P (try_finally body cleanup).
Proof.
  intros Hb Hc env w. unfold try_finally. specialize (Hb env w).
  destruct (body env w) as [[r w1] t1]. specialize (Hc env w1).
  destruct (cleanup env w1) as [[[u|e] w2] t2]; simpl in *;
    now rewrite forallb_app, Hb, Hc.
Qed.

Lemma emits_only_pushd {A : Type} (directory : string) (body : M A) :
  (forall d, P (Chdir d) = true) -> emits_only P body ->
  emits_only P (pushd directory body).
Proof.
  intros Hd Hb. unfold pushd.
  apply emits_only_bind; [apply emits_only_getcwd|]. intros prev.
  apply emits_only_bind; [now apply emits_only_chdir|]. intros _.
  apply emits_only_try_finally; [exact Hb | now apply emits_only_chdir].
Qed.

Lemma emits_only_for_each {A : Type} (xs : list A) (f : A -> M unit) :
  (forall x, emits_only P (f x)) -> emits_only P (for_each xs f).
Proof.
  intros Hf. induction xs as [|x xs IH]; simpl.
  - apply emits_only_ret.
  - apply emits_only_bind; [apply Hf | intros _; exact IH].
Qed.

Lemma emits_only_first_match (matches : list string) :
  emits_only P (first_match matches).
Proof.
  destruct matches; [apply emits_only_raise | apply emits_only_ret].
Qed.

Lemma emits_only_update_chart (path : string) (v : Version) :
  P (Read path) = true -> (forall contents, P (Write path contents) = true) ->
  emits_only P (_update_chart path v).
Proof.
  intros Hr Hw. unfold _update_chart.
  apply emits_only_bind; [now apply emits_only_open_r|]. intros chart.
  now apply emits_only_open_w_write.
Qed.

Lemma emits_only_update_openapi (path : string) (v : Version) :
  P (Read path) = true -> (forall contents, P (Write path contents) = true) ->
  emits_only P (_update_openapi path v).
Proof.
  intros Hr Hw. unfold _update_openapi.
  apply emits_only_bind; [now apply emits_only_open_r|]. intros chart.
  now apply emits_only_open_w_write.
Qed.

End Confined.

(** One step of a proof that a computation is confined to [P]. *)
Ltac confined_step :=
  first
    [ apply emits_only_pushd; [intros ?; reflexivity|]
    | apply emits_only_for_each; intros ?
    | apply emits_only_first_match
    | apply emits_only_update_chart; [reflexivity | intros ?; reflexivity]
    | apply emits_only_update_openapi; [reflexivity | intros ?; reflexivity]
    | apply emits_only_ret
    | apply emits_only_raise
    | apply emits_only_print; reflexivity
    | apply emits_only_glob; intros ?; reflexivity
    | apply emits_only_check_call; intros ?; reflexivity
    | apply emits_only_check_output; intros ?; reflexivity
    | apply emits_only_input; reflexivity
    | apply emits_only_bind; [|intros ?]
    | match goal with
      | |- emits_only _ (if ?c then _ else _) => destruct c
      | |- emits_only _ (match ?x with _ => _ end) => destruct x eqn:?
      end ].

Ltac confined := repeat confined_step.

(** [ui_npm_update] runs npm and nothing else: it creates no tag and
    touches no OpenAPI document by itself. *)
Lemma ui_npm_update_no_tag : emits_only no_tag ui_npm_update.
Proof. unfold ui_npm_update. confined. Qed.

(* ===================================================================== *)
(** * Beyond the claims: releases *)
(* ===================================================================== *)

(** X6. The release of a prerelease version leaves the OpenAPI stage
    out altogether: whatever the world, it never globs for an OpenAPI
    document and never runs [make validate], and the precommit hook
    plays no part in it, so the release of a component is the release
    of the same component without its hook. *)
Theorem prerelease_skips_openapi_and_hook (self : Component) (v : Version) :
  is_set (prerelease v) = true ->
  emits_only no_openapi (release self v)
  /\ forall env w,
       release self v env w
       = release (mkComponent (name self) (dependencies self) None) v env w.
Proof.
  intros Hpre. split.
  - unfold release. rewrite Hpre. cbn [negb]. confined.
  - intros env w. unfold release. cbn [name dependencies precommit_hook].
    rewrite Hpre. reflexivity.
Qed.

Lemma prerelease_skips_openapi_and_hook_witness :
  is_set (prerelease Sample.v1_1_0_rc1) = true
  /\ emits_only no_openapi
       (release (mkComponent "ui" [] (Some ui_npm_update)) Sample.v1_1_0_rc1).
Proof.
  split; [reflexivity|].
  apply (prerelease_skips_openapi_and_hook
           (mkComponent "ui" [] (Some ui_npm_update)) Sample.v1_1_0_rc1).
  reflexivity.
Defined.

(** Tags and the operator's answer. *)
Lemma tags_after_input_quiet (t : list event) :
  forallb no_tag t = true -> tags_after_input t = true.
Proof.
  induction t as [|e t IH]; simpl; [reflexivity|].
  intros [He Ht]%andb_prop. destruct (is_input e); [reflexivity|].
  now rewrite He, IH.
Qed.

Lemma tags_after_input_app (t1 t2 : list event) :
  forallb no_tag t1 = true -> tags_after_input t2 = true ->
  tags_after_input (t1 ++ t2) = true.
Proof.
  induction t1 as [|e t1 IH]; simpl; [auto|].
  intros [He Ht]%andb_prop H2. destruct (is_input e); [reflexivity|].
  now rewrite He, IH.
Qed.

Lemma tags_after_input_app_quiet (t1 t2 : list event) :
  tags_after_input t1 = true -> forallb no_tag t2 = true ->
  tags_after_input (t1 ++ t2) = true.
Proof.
  induction t1 as [|e t1 IH]; simpl.
  - intros _. apply tags_after_input_quiet.
  - destruct (is_input e); [reflexivity|].
    intros [He Ht]%andb_prop H2. now rewrite He, IH.
Qed.

Lemma waits_bind {A B : Type} (m : M A) (k : A -> M B) :
  emits_only no_tag m -> (forall a, waits_for_input (k a)) ->
  waits_for_input (bind m k).
Proof.
  intros Hm Hk env w. unfold bind. specialize (Hm env w).
  destruct (m env w) as [[[a|e] w1] t1]; simpl in Hm.
  - specialize (Hk a env w1). destruct (k a env w1) as [[r w2] t2].
    simpl in *. now apply tags_after_input_app.
  - simpl. now apply tags_after_input_quiet.
Qed.

Lemma waits_input {B : Type} (prompt : string) (k : string -> M B) :
  waits_for_input (bind (input prompt) k).
Proof.
  intros env w. unfold bind, input.
  destruct (stdin w) as [|line rest]; [reflexivity|].
  now destruct (k line env _) as [[r w2] t2].
Qed.

Lemma waits_pushd {A : Type} (directory : string) (body : M A) :
  waits_for_input body -> waits_for_input (pushd directory body).
Proof.
  intros Hb env w. unfold pushd, bind, getcwd. unfold chdir at 1.
  destruct (is_dir env _ _); [|reflexivity].
  unfold try_finally.
  specialize (Hb env (mkWorld (resolve (cwd w) directory) (files w) (stdin w))).
  destruct (body env _) as [[rb wb] tb].
  destruct (chdir (cwd w) env wb) as [[rc wc] tc] eqn:E.
  apply chdir_calls in E as ->. simpl in Hb.
  assert (H : tags_after_input (tb ++ [Chdir (cwd w)]) = true)
    by now apply tags_after_input_app_quiet.
  destruct rc; simpl; exact H.
Qed.

(** X7. Whatever the world does, a release creates no tag before it
    has asked the operator to confirm that the pull request is merged:
    in the calls of every release, returned or failed, [git tag] comes
    only after the prompt.  The precommit hook, if any, is assumed not
    to create tags itself. *)
Theorem release_tags_only_after_input (self : Component) (v : Version)
    (env : Env) (w : World) :
  (forall hook, precommit_hook self = Some hook -> emits_only no_tag hook) ->
  tags_after_input (snd (release self v env w)) = true.
Proof.
  intros Hhook. revert env w. change (waits_for_input (release self v)).
  unfold release.
  apply waits_bind; [confined|]. intros _.
  apply waits_pushd.
  apply waits_bind; [confined|]. intros _.
  apply waits_bind; [confined|]. intros matches.
  apply waits_bind; [confined|]. intros _.
  apply waits_bind; [confined|]. intros path.
  apply waits_bind; [confined|]. intros _.
  apply waits_bind; [confined|]. intros _.
  apply waits_bind.
  { confined. now apply Hhook. }
  intros _. cbv zeta.
  do 7 (apply waits_bind; [confined|]; intros _).
  apply waits_input.
Qed.

Lemma release_tags_only_after_input_witness :
  tags_after_input
    (snd (release (mkComponent "ui" [] (Some ui_npm_update)) Sample.v1_2_3
            Sample.env_ok Sample.world)) = true.
Proof.
  apply (release_tags_only_after_input
           (mkComponent "ui" [] (Some ui_npm_update)) Sample.v1_2_3
           Sample.env_ok Sample.world).
  intros hook [= <-]. exact ui_npm_update_no_tag.
Defined.

(** How computations that return have run. *)
Lemma bind_ok_inv {A B : Type} (m : M A) (k : A -> M B) (env : Env)
    (w : World) (b : B) (w' : World) (t : list event) :
  bind m k env w = (Ok b, w', t) ->
  exists a w1 t1 t2,
    m env w = (Ok a, w1, t1) /\ k a env w1 = (Ok b, w', t2)
    /\ t = (t1 ++ t2)%list.
Proof.
  intros H. apply bind_inv in H as [H | (e & _ & H)]; [exact H|].
  discriminate H.
Qed.

Lemma pushd_ok_inv {A : Type} (directory : string) (body : M A) (env : Env)
    (w : World) (a : A) (w' : World) (t : list event) :
  pushd directory body env w = (Ok a, w', t) ->
  exists wb tb,
    body env (mkWorld (resolve (cwd w) directory) (files w) (stdin w))
    = (Ok a, wb, tb)
    /\ t = (Chdir directory :: tb ++ [Chdir (cwd w)])%list.
Proof.
  unfold pushd, bind, getcwd. unfold chdir at 1.
  destruct (is_dir env (files w) (resolve (cwd w) directory));
    [|discriminate].
  unfold try_finally. destruct (body env _) as [[rb wb] tb].
  destruct (chdir (cwd w) env wb) as [[rc wc] tc] eqn:E.
  apply chdir_calls in E as ->.
  destruct rc; [|discriminate]. intros [= -> <- <-]. now exists wb, tb.
Qed.

Lemma print_inv (text : string) (env : Env) (w : World) (r : Result unit)
    (w' : World) (t : list event) :
  print text env w = (r, w', t) -> w' = w /\ t = [Print text].
Proof. now intros [= _ <- <-]. Qed.

Lemma check_call_ok_inv (args : list string) (env : Env) (w : World)
    (u : unit) (w' : World) (t : list event) :
  check_call args env w = (Ok u, w', t) ->
  cwd w' = cwd w /\ t = [CheckCall (cwd w) args].
Proof.
  unfold check_call. destruct (returncode _ =? 0)%Z; [|discriminate].
  now intros [= _ <- <-].
Qed.

Lemma input_ok_inv (prompt : string) (env : Env) (w : World) (line : string)
    (w' : World) (t : list event) :
  input prompt env w = (Ok line, w', t) ->
  cwd w' = cwd w /\ t = [Input prompt].
Proof.
  unfold input. destruct (stdin w); [discriminate|].
  now intros [= _ <- <-].
Qed.

(** Peel the first step off a sequence that returned. *)
Ltac peel H S :=
  let a := fresh "a" in
  let w1 := fresh "w" in
  let t1 := fresh "t" in
  let t2 := fresh "t" in
  apply bind_ok_inv in H as (a & w1 & t1 & t2 & S & H & ->).

Ltac peel_print H :=
  let S := fresh "Step" in
  peel H S; apply print_inv in S as [-> ->].

Ltac peel_call H :=
  let S := fresh "Step" in
  let E := fresh "Ecwd" in
  peel H S; apply check_call_ok_inv in S as [E ->].

Ltac peel_input H :=
  let S := fresh "Step" in
  let E := fresh "Ecwd" in
  peel H S; apply input_ok_inv in S as [E ->].

Ltac peel_any H :=
  let S := fresh "Step" in
  peel H S.

(** Bring the directories of successive calls back to the first. *)
Ltac same_directory :=
  repeat match goal with
         | E : cwd ?a = cwd ?b |- context [cwd ?a] => rewrite E
         end.

(** X8. A release that returns has ended with the whole closing
    sequence, run in one directory: the commit on the branch [bump]
    with the title [Version] and the canonical tag, the forced push,
    the pull request, the prompt, then the checkout of [main], the
    pull, the tag, its push and the removal of the branch; and last of
    all the change back to the directory the release started from. *)
Theorem release_returns_after_commit_and_tag (self : Component) (v : Version)
    (env : Env) (w w' : World) (t : list event) :
  release self v env w = (Ok tt, w', t) ->
  exists before dir,
    t = (before ++ commit_and_tag dir v ++ [Chdir (cwd w)])%list.
Proof.
  unfold release. intros H.
  peel_print H.
  apply pushd_ok_inv in H as (wb & tb & H & ->).
  peel_print H.
  do 6 peel_any H.
  cbv zeta in H.
  peel_print H.
  do 5 peel_call H.
  peel_print H.
  peel_input H.
  peel_print H.
  do 4 peel_call H.
  apply check_call_ok_inv in H as [_ ->].
  same_directory.
  match goal with
  | |- context [CheckCall (cwd ?x) ["git"; "pull"]] =>
      exists ([releasing self; Chdir (name self);
               Print (bold "Updating Helm" ++ " ...")]
              ++ t ++ t0 ++ t1 ++ t2 ++ t3 ++ t4)%list, (cwd x)
  end.
  unfold commit_and_tag, releasing. cbv zeta.
  repeat rewrite <- app_assoc. reflexivity.
Qed.

Lemma release_returns_after_commit_and_tag_witness :
  fst (fst (release (mkComponent "core" [] None) Sample.v1_2_3
              Sample.env_ok Sample.world)) = Ok tt
  /\ exists before dir,
       snd (release (mkComponent "core" [] None) Sample.v1_2_3
              Sample.env_ok Sample.world)
       = (before ++ commit_and_tag dir Sample.v1_2_3
            ++ [Chdir (cwd Sample.world)])%list.
Proof.
  split; [vm_compute; reflexivity|].
  apply (release_returns_after_commit_and_tag (mkComponent "core" [] None)
           Sample.v1_2_3 Sample.env_ok Sample.world
           (snd (fst (release (mkComponent "core" [] None) Sample.v1_2_3
                        Sample.env_ok Sample.world)))).
  vm_compute. reflexivity.
Defined.

(** X9. A full release of a component without dependencies whose
    repository holds more than one OpenAPI document stops at their
    discovery: the chart has been found, read and rewritten by then,
    and the release raises the error without having run any command;
    the rewritten chart stays on disk. *)
Theorem release_stops_at_openapi_discovery (self : Component) (v : Version)
    (env : Env) (w : World) (path old : string) :
  absolute (cwd w) = true ->
  (forall fs, is_dir env fs (cwd w) = true) ->
  is_dir env (files w) (resolve (cwd w) (name self)) = true ->
  dependencies self = [] ->
  is_set (prerelease v) = false ->
  let dir := resolve (cwd w) (name self) in
  let patched := _update_chart_contents (Str.universal_newlines old) v in
  matches_of env (files w) dir "charts/**/Chart.yaml" = [path] ->
  files w (resolve dir path) = Some old ->
  (forall fs, 1 < List.length (matches_of env fs dir openapi_glob)) ->
  let calls :=
    [releasing self; Chdir (name self);
     Print (bold "Updating Helm" ++ " ...");
     Glob dir "charts/**/Chart.yaml"; Read path; Write path patched;
     Print (bold "Updating OpenAPI" ++ " ...");
     Glob dir openapi_glob; Chdir (cwd w)] in
  release self v env w
  = (Raise (RuntimeError
              ("expected to find 0 or 1 OpenAPI spec.yaml for component "
               ++ name self)),
     mkWorld (cwd w)
       (fun p => if String.eqb p (resolve dir path) then Some patched
                 else files w p)
       (stdin w),
     calls)
  /\ existsb is_check_call calls = false.
Proof.
  intros Ha Hprev Hdir Hdeps Hpre dir patched Hchart Hfile Hspecs calls.
  split; [|reflexivity].
  unfold release. unfold bind at 1. unfold print at 1, emit at 1.
  unfold pushd. unfold bind at 1. unfold getcwd.
  unfold bind at 1. unfold chdir at 1. rewrite Hdir. fold dir.
  unfold try_finally.
  unfold bind at 1. unfold print at 1, emit at 1.
  unfold bind at 1. unfold glob at 1. cbn [cwd files stdin].
  rewrite Hchart.
  unfold bind at 1. cbn [List.length Nat.eqb negb]. unfold ret at 1.
  unfold bind at 1. cbn [first_match]. unfold ret at 1.
  unfold bind at 1. unfold _update_chart.
  rewrite (patch_file_found (fun chart => _update_chart_contents chart v)
             path env _ old) by exact Hfile.
  cbn [cwd files stdin]. fold patched.
  unfold bind at 1. rewrite Hdeps. unfold ret at 1.
  unfold bind at 1. rewrite Hpre. cbn [negb].
  unfold bind at 1. unfold print at 1, emit at 1.
  unfold bind at 1. unfold glob at 1. cbn [cwd files stdin].
  unfold bind at 1.
  match goal with
  | |- context [Nat.ltb 1 (List.length (matches_of env ?fs dir ?p))] =>
      pose proof (Hspecs fs) as Hlen; apply Nat.ltb_lt in Hlen;
      change p with openapi_glob; rewrite Hlen
  end.
  unfold raise.
  rewrite chdir_back by (cbn [files]; auto). reflexivity.
Qed.

Lemma release_stops_at_openapi_discovery_witness :
  release (mkComponent "core" [] None) Sample.v1_2_3 env_two_specs Sample.world
  = (Raise (RuntimeError
              "expected to find 0 or 1 OpenAPI spec.yaml for component core"),
     mkWorld "/work"
       (fun p =>
          if String.eqb p "/work/core/charts/unikorn/Chart.yaml"
          then Some (_update_chart_contents
                       (Str.universal_newlines Sample.chart) Sample.v1_2_3)
          else files Sample.world p)
       (stdin Sample.world),
     [releasing (mkComponent "core" [] None); Chdir "core";
      Print (bold "Updating Helm" ++ " ...");
      Glob "/work/core" "charts/**/Chart.yaml";
      Read "charts/unikorn/Chart.yaml";
      Write "charts/unikorn/Chart.yaml"
        (_update_chart_contents (Str.universal_newlines Sample.chart)
           Sample.v1_2_3);
      Print (bold "Updating OpenAPI" ++ " ...");
      Glob "/work/core" openapi_glob; Chdir "/work"]).
Proof.
  apply (release_stops_at_openapi_discovery (mkComponent "core" [] None)
           Sample.v1_2_3 env_two_specs Sample.world
           "charts/unikorn/Chart.yaml" Sample.chart);
    try reflexivity.
  intros fs. simpl. lia.
Defined.

(* ===================================================================== *)
(** * Beyond the claims: the command line and the run *)
(* ===================================================================== *)

Lemma parse_args_known (values : string) (step : option string) (env : Env)
    (w : World) :
  known_step step ->
  parse_args (Some values) step env w
  = match SemverNormalizeAction values env w with
    | (Ok normal, _, _) => (Ok (mkNamespace normal step), w, [])
    | (Raise e, _, _) => (Raise e, w, [])
    end.
Proof.
  intros Hstep.
  assert (Hcheck : check_choice step env w = (Ok tt, w, [])).
  { unfold check_choice. destruct step as [s|]; [|reflexivity].
    apply known_step_check in Hstep. now rewrite Hstep. }
  unfold parse_args. destruct (version_first env).
  - destruct values as [|c rest]; [reflexivity|].
    unfold bind at 1. unfold SemverNormalizeAction.
    destruct (Ascii.eqb c "v"); unfold ret at 1;
      unfold bind at 1; now rewrite Hcheck.
  - unfold bind at 1. rewrite Hcheck.
    destruct values as [|c rest]; [reflexivity|].
    unfold SemverNormalizeAction. now destruct (Ascii.eqb c "v").
Qed.

Lemma parse_args_unknown (values step : string) (env : Env) (w : World) :
  values <> EmptyString -> ~ In step (map name COMPONENTS) ->
  parse_args (Some values) (Some step) env w = (Raise (SystemExit 2), w, []).
Proof.
  intros Hv Hstep. pose proof (check_choice_unknown step env w Hstep) as Hcheck.
  unfold parse_args. destruct (version_first env).
  - destruct values as [|c rest]; [contradiction|].
    unfold bind at 1. unfold SemverNormalizeAction.
    destruct (Ascii.eqb c "v"); unfold ret at 1;
      unfold bind at 1; now rewrite Hcheck.
  - unfold bind at 1. now rewrite Hcheck.
Qed.

(** X10. [main] starts nothing unless its arguments are in order.
    Without [--version], or with a [--from-step] that names no
    component, the parser ends the program with status 2; an empty
    version makes the action raise [IndexError]; and a version that is
    not a semantic version, once its leading [v] is dropped, raises the
    [ValueError] of the library.  In all four cases no call has been
    made: no repository was validated, let alone released. *)
Theorem main_rejects_bad_arguments (env : Env) (w : World) :
  (forall step, main None step env w = (Raise (SystemExit 2), w, []))
  /\ (forall values step,
        values <> EmptyString -> ~ In step (map name COMPONENTS) ->
        main (Some values) (Some step) env w = (Raise (SystemExit 2), w, []))
  /\ (forall step,
        known_step step ->
        main (Some EmptyString) step env w = (Raise IndexError, w, []))
  /\ (forall c rest step,
        known_step step ->
        let normal := if Ascii.eqb c "v" then rest else String c rest in
        Semver.parse normal = None ->
        main (Some (String c rest)) step env w
        = (Raise (ValueError (normal ++ " is not valid SemVer string")),
           w, [])).
Proof.
  split; [|split; [|split]].
  - intros [step|]; [|reflexivity].
    unfold main, parse_args, check_choice.
    now destruct (existsb (String.eqb step) (map name COMPONENTS)).
  - intros values step Hv Hstep. unfold main.
    unfold bind at 1. rewrite (parse_args_unknown _ _ env w Hv Hstep).
    reflexivity.
  - intros step Hstep. unfold main. unfold bind at 1.
    now rewrite (parse_args_known _ _ env w Hstep).
  - intros c rest step Hstep normal Hparse. unfold main. unfold bind at 1.
    rewrite (parse_args_known _ _ env w Hstep).
    unfold SemverNormalizeAction. fold normal.
    replace ((if Ascii.eqb c "v" then ret rest else ret (String c rest)) env w)
      with (@ret string normal env w)
      by (unfold normal; now destruct (Ascii.eqb c "v")).
    unfold ret at 1. unfold bind at 1. cbn [version].
    unfold Version_parse. now rewrite Hparse.
Qed.

Lemma main_rejects_bad_arguments_witness :
  main (Some "v1.2.3") (Some "does-not-exist") Sample.env_ok Sample.world
  = (Raise (SystemExit 2), Sample.world, [])
  /\ main (Some "v1.2") None Sample.env_ok Sample.world
     = (Raise (ValueError "1.2 is not valid SemVer string"), Sample.world, []).
Proof.
  destruct (main_rejects_bad_arguments Sample.env_ok Sample.world)
    as (_ & H2 & _ & H4).
  split.
  - apply H2; [discriminate|]. simpl. intuition discriminate.
  - apply (H4 "v"%char "1.2" None); [exact I | reflexivity].
Defined.

(** Validations only look. *)
Lemma validate_only_queries (self : Component) :
  emits_only only_queries (validate self).
Proof. unfold validate. confined. Qed.

(** X11. When the validation of some component fails, the run ends
    with that error and nothing has been touched in any repository:
    the calls made are only messages, changes of directory and queries
    of the current branch; no file was written, no command run for its
    effect, the operator was not asked anything. *)
Theorem run_stops_at_failed_validation (cs : list Component) (v : Version)
    (env : Env) (w : World) (e : exn) (wv : World) (tv : list event) :
  for_each cs validate env w = (Raise e, wv, tv) ->
  run cs v env w = (Raise e, wv, tv)
  /\ forallb only_queries tv = true.
Proof.
  intros H. split.
  - unfold run, bind. now rewrite H.
  - pose proof (emits_only_for_each only_queries cs validate
                  validate_only_queries env w) as Hq.
    now rewrite H in Hq.
Qed.

Lemma run_stops_at_failed_validation_witness :
  run COMPONENTS Sample.v1_2_3 env_feature_branch Sample.world
  = (Raise (RuntimeError "component core is not checked out to main"),
     Sample.world,
     [validating (mkComponent "core" [] None); Chdir "core";
      CheckOutput "/work/core" git_branch; Chdir "/work"]).
Proof.
  apply (run_stops_at_failed_validation COMPONENTS Sample.v1_2_3
           env_feature_branch Sample.world).
  vm_compute. reflexivity.
Defined.

(** X12. Whatever the step, a name of the registry, another name or
    none at all, [components_from] returns a non-empty suffix of the
    registry: components are never dropped from the middle, never
    reordered, and the last one is always there. *)
Theorem components_from_nonempty_suffix (step : option string) :
  components_from step <> []
  /\ exists before, COMPONENTS = (before ++ components_from step)%list.
Proof.
  destruct step as [step|].
  - destruct (in_dec string_dec step (map name COMPONENTS)) as [Hin | Hout].
    + destruct (index_from_found COMPONENTS step Hin 0)
        as (before & c & after & E & _ & _ & Hi).
      assert (Hs : components_from (Some step) = c :: after).
      { unfold components_from. rewrite Hi, E. apply slice_from_length. }
      rewrite Hs. split; [discriminate | now exists before].
    + rewrite (components_from_missing step Hout).
      split; [discriminate|]. now exists (firstn 5 COMPONENTS).
  - split; [discriminate | now exists []].
Qed.




(* ===================================================================== *)
(** * Beyond the claims: from the tag back to the version *)
(* ===================================================================== *)

(** Numbers are written without leading zeros and read back as they
    were. *)
Lemma to_uint_normal (n : N) : Decimal.unorm (N.to_uint n) = N.to_uint n.
Proof.
  rewrite <- (DecimalN.Unsigned.to_of (N.to_uint n)).
  now rewrite DecimalN.Unsigned.of_to.
Qed.

Lemma nzhead_not_zero (d : Decimal.uint) :
  match Decimal.nzhead d with
  | Decimal.D0 _ => False
  | _ => True
  end.
Proof. induction d; simpl; trivial. Qed.

Lemma numeric_id_normal (d : Decimal.uint) :
  Decimal.unorm d = d -> numeric_id (NilZero.string_of_uint d) = true.
Proof.
  intros H. pose proof (nzhead_not_zero d) as Hz.
  unfold Decimal.unorm in H.
  destruct (Decimal.nzhead d) eqn:E; try contradiction; subst d;
    unfold NilZero.string_of_uint, numeric_id;
    cbn [NilEmpty.string_of_uint Str.all Str.truthy];
    try (rewrite string_of_uint_digits; reflexivity).
  reflexivity.
Qed.

Lemma of_N_numeric_id (n : N) : numeric_id (Str.of_N n) = true.
Proof. apply numeric_id_normal, to_uint_normal. Qed.

Lemma acc_digit (acc k : positive) :
  (10 * Npos acc + Npos k)%N = Npos (Pos.add k (Pos.mul 10 acc)).
Proof.
  change (10 * Npos acc + Npos k)%N with (Npos (Pos.add (Pos.mul 10 acc) k)).
  f_equal. apply Pos.add_comm.
Qed.

Lemma acc_zero (acc : positive) :
  (10 * Npos acc + 0)%N = Npos (Pos.mul 10 acc).
Proof. reflexivity. Qed.

(** Replace the value of a digit by the number it stands for. *)
Ltac digit_value :=
  match goal with
  | |- context [Str.digit_value ?c] =>
      let v := eval vm_compute in (Str.digit_value c) in
      change (Str.digit_value c) with v
  end.

Lemma to_N_acc_pos (d : Decimal.uint) :
  forall acc,
    Str.to_N_acc (Npos acc) (NilEmpty.string_of_uint d)
    = Npos (Pos.of_uint_acc d acc).
Proof.
  induction d; intros acc;
    cbn [NilEmpty.string_of_uint Str.to_N_acc Pos.of_uint_acc];
    [reflexivity | ..]; digit_value;
    first [rewrite acc_zero | rewrite acc_digit]; apply IHd.
Qed.

Lemma to_N_acc_zero (d : Decimal.uint) :
  Str.to_N_acc 0 (NilEmpty.string_of_uint d) = Pos.of_uint d.
Proof.
  induction d; cbn [NilEmpty.string_of_uint Str.to_N_acc Pos.of_uint];
    [reflexivity | ..]; digit_value;
    [exact IHd | ..]; apply (to_N_acc_pos d).
Qed.

Lemma to_N_of_N (n : N) : Str.to_N (Str.of_N n) = n.
Proof.
  unfold Str.to_N, Str.of_N, NilZero.string_of_uint.
  rewrite <- (DecimalN.Unsigned.of_to n) at 2. unfold N.of_uint.
  destruct (N.to_uint n) eqn:E; try (rewrite <- E; apply to_N_acc_zero).
  reflexivity.
Qed.

(** Splitting a text at a character it holds once, or not at all. *)
Lemma lacks_append (c : ascii) (a b : string) :
  lacks c (a ++ b) = lacks c a && lacks c b.
Proof. apply all_append. Qed.

Lemma split_first_lacks (c : ascii) (s : string) :
  lacks c s = true -> Str.split_first c s = (s, None).
Proof.
  induction s as [|a s IH]; [reflexivity|].
  unfold lacks. simpl. fold (lacks c s).
  intros [Ha Hs]%andb_prop. apply negb_true_iff in Ha.
  now rewrite Ha, (IH Hs).
Qed.

Lemma split_first_at (c : ascii) (a b : string) :
  lacks c a = true -> Str.split_first c (a ++ String c b) = (a, Some b).
Proof.
  induction a as [|x a IH].
  - intros _. simpl. now rewrite Ascii.eqb_refl.
  - unfold lacks. simpl. fold (lacks c a).
    intros [Hx Ha]%andb_prop. apply negb_true_iff in Hx.
    now rewrite Hx, (IH Ha).
Qed.

Lemma split_lacks (c : ascii) (s : string) :
  lacks c s = true -> Str.split c s = [s].
Proof.
  induction s as [|a s IH]; [reflexivity|].
  unfold lacks. simpl. fold (lacks c s).
  intros [Ha Hs]%andb_prop. apply negb_true_iff in Ha.
  now rewrite Ha, (IH Hs).
Qed.

Lemma split_at (c : ascii) (a b : string) :
  lacks c a = true -> Str.split c (a ++ String c b) = a :: Str.split c b.
Proof.
  induction a as [|x a IH].
  - intros _. simpl. now rewrite Ascii.eqb_refl.
  - unfold lacks. simpl. fold (lacks c a).
    intros [Hx Ha]%andb_prop. apply negb_true_iff in Hx.
    now rewrite Hx, (IH Ha).
Qed.

Lemma of_N_lacks (c : ascii) (n : N) :
  Str.is_digit c = false -> lacks c (Str.of_N n) = true.
Proof.
  intros Hc. apply (all_impl Str.is_digit); [|apply of_N_digits].
  intros x Hx. apply negb_true_iff, Ascii.eqb_neq. intros ->.
  now rewrite Hx in Hc.
Qed.

Lemma ident_or_dot_not_plus (c : ascii) :
  Str.is_ident_char c || Ascii.eqb c "." = true ->
  negb (Ascii.eqb c "+") = true.
Proof.
  destruct c as [[|] [|] [|] [|] [|] [|] [|] [|]]; intros H; try reflexivity;
    discriminate H.
Qed.

(** The three numbers of a version, separated by dots. *)
Lemma core_lacks (x : ascii) (a b c : N) :
  Str.is_digit x = false -> Ascii.eqb "." x = false ->
  lacks x (Str.of_N a ++ "." ++ Str.of_N b ++ "." ++ Str.of_N c) = true.
Proof.
  intros Hd Hdot. rewrite !lacks_append, !of_N_lacks by exact Hd.
  assert (H : lacks x "." = true).
  { unfold lacks. cbn [Str.all]. now rewrite Hdot. }
  now rewrite H.
Qed.

Lemma split_core (a b c : N) :
  Str.split "." (Str.of_N a ++ "." ++ Str.of_N b ++ "." ++ Str.of_N c)
  = [Str.of_N a; Str.of_N b; Str.of_N c].
Proof.
  change (Str.of_N a ++ "." ++ Str.of_N b ++ "." ++ Str.of_N c)
    with (Str.of_N a ++ String "." (Str.of_N b ++ String "." (Str.of_N c))).
  rewrite !split_at, split_lacks by (now apply of_N_lacks). reflexivity.
Qed.

Lemma parse_core (a b c : N) (pre : option string) :
  optional_ids prerelease_id pre = true ->
  match Str.split "." (Str.of_N a ++ "." ++ Str.of_N b ++ "." ++ Str.of_N c)
  with
  | [x; y; z] =>
      if numeric_id x && numeric_id y && numeric_id z
         && optional_ids prerelease_id pre && optional_ids build_id None
      then Some (mkVersion (Str.to_N x) (Str.to_N y) (Str.to_N z) pre None)
      else None
  | _ => None
  end = Some (mkVersion a b c pre None).
Proof.
  intros Hp. rewrite split_core, !of_N_numeric_id, Hp, !to_N_of_N.
  reflexivity.
Qed.

(** What the library writes for a valid version without build
    metadata, it reads back as that version. *)
Lemma parse_str (v : Version) :
  valid v = true -> parse (str (without_build v)) = Some (without_build v).
Proof.
  destruct v as [a b c pre bld]. unfold valid, without_build, str.
  cbn [major minor patch prerelease build is_set].
  intros [Hp _]%andb_prop. rewrite append_nil_r.
  set (core := Str.of_N a ++ "." ++ Str.of_N b ++ "." ++ Str.of_N c).
  assert (Hcore : forall x, Str.is_digit x = false -> Ascii.eqb "." x = false ->
                            lacks x core = true)
    by (intros x; apply core_lacks).
  destruct pre as [p|]; cbn [is_set text].
  - destruct p as [|x p]; [discriminate Hp|]. cbn [Str.truthy].
    set (q := String x p) in *.
    assert (Hq : forall y, (forall z, Str.is_ident_char z || Ascii.eqb z "." = true
                                      -> negb (Ascii.eqb z y) = true) ->
                           lacks y q = true).
    { intros y Hy. exact (ids_all _ _ (Some q) Hy prerelease_id_ident Hp). }
    replace (Str.of_N a ++ "." ++ Str.of_N b ++ "." ++ Str.of_N c ++ "-" ++ q)
      with (core ++ String "-" q)
      by (unfold core; now rewrite !append_assoc).
    unfold parse.
    rewrite split_first_lacks.
    2:{ rewrite lacks_append, Hcore by reflexivity.
        unfold lacks. simpl. apply (Hq "+"%char), ident_or_dot_not_plus. }
    rewrite split_first_at by (now apply Hcore).
    apply parse_core, Hp.
  - rewrite append_nil_r. fold core. unfold parse.
    rewrite split_first_lacks by (now apply Hcore).
    rewrite split_first_lacks by (now apply Hcore).
    now apply parse_core.
Qed.

Lemma valid_without_build (v : Version) :
  valid v = true -> valid (without_build v) = true.
Proof.
  unfold valid, without_build. cbn [prerelease build].
  intros [Hp _]%andb_prop. now rewrite Hp.
Qed.

Lemma canonical_version_str (v : Version) :
  canonical_version v = "v" ++ str (without_build v).
Proof.
  unfold canonical_version, str, without_build.
  cbn [major minor patch prerelease build is_set].
  now rewrite append_nil_r.
Qed.

(** X14. The tag of a release, given back to the script as its
    [--version], is the version that was released: for every valid
    version, the command line strips the [v] of the canonical tag and
    the library reads the rest as the same major, minor, patch and
    prerelease.  The build metadata alone is lost, since the canonical
    tag never carries it. *)
Theorem canonical_version_round_trip (v : Version) (env : Env) (w : World) :
  valid v = true ->
  (args <- parse_args (Some (canonical_version v)) None ;;
   Version_parse (version args)) env w
  = (Ok (without_build v), w, [])
  /\ canonical_version (without_build v) = canonical_version v.
Proof.
  intros Hv. split; [|reflexivity].
  rewrite canonical_version_str.
  assert (Hargs : parse_args (Some ("v" ++ str (without_build v))) None env w
                  = (Ok (mkNamespace (str (without_build v)) None), w, []))
    by (unfold parse_args; destruct (version_first env); reflexivity).
  unfold bind at 1. rewrite Hargs. cbn [version].
  unfold Version_parse. now rewrite (parse_str v Hv).
Qed.

Lemma canonical_version_round_trip_witness :
  valid (mkVersion 1 2 3 (Some "rc.1") (Some "build.7")) = true
  /\ (args <- parse_args
                (Some (canonical_version
                         (mkVersion 1 2 3 (Some "rc.1") (Some "build.7"))))
                None ;;
      Version_parse (version args)) Sample.env_ok Sample.world
     = (Ok (mkVersion 1 2 3 (Some "rc.1") None), Sample.world, []).
Proof.
  split; [reflexivity|].
  apply (canonical_version_round_trip
           (mkVersion 1 2 3 (Some "rc.1") (Some "build.7"))
           Sample.env_ok Sample.world).
  reflexivity.
Defined.

(* ===================================================================== *)
(** * Beyond the claims: where the commands run *)
(* ===================================================================== *)

Section Staying.

Lemma stays_ret {A : Type} (a : A) : stays_in_directory (ret a).
Proof. intros env w. now split. Qed.

Lemma stays_raise {A : Type} (e : exn) : stays_in_directory (@raise A e).
Proof. intros env w. now split. Qed.

Lemma stays_bind {A B : Type} (m : M A) (k : A -> M B) :
  stays_in_directory m -> (forall a, stays_in_directory (k a)) ->
  stays_in_directory (bind m k).
Proof.
  intros Hm Hk env w. unfold bind. destruct (Hm env w) as [Hc Ht].
  destruct (m env w) as [[[a|e] w1] t1]; simpl in Hc, Ht; [|now split].
  destruct (Hk a env w1) as [Hc2 Ht2].
  destruct (k a env w1) as [[r w2] t2]. simpl in *.
  rewrite Hc in *. split; [exact Hc2|]. now rewrite forallb_app, Ht, Ht2.
Qed.

Lemma stays_print (text : string) : stays_in_directory (print text).
Proof. intros env w. now split. Qed.

Lemma stays_glob (pattern : string) : stays_in_directory (glob pattern).
Proof.
  intros env w. split; [reflexivity|]. simpl. now rewrite String.eqb_refl.
Qed.

Lemma stays_check_call (args : list string) :
  stays_in_directory (check_call args).
Proof.
  intros env w. unfold check_call.
  destruct (returncode _ =? 0)%Z; simpl; now rewrite String.eqb_refl.
Qed.

Lemma stays_check_output (args : list string) :
  stays_in_directory (check_output args).
Proof.
  intros env w. unfold check_output.
  destruct (returncode _ =? 0)%Z; simpl; now rewrite String.eqb_refl.
Qed.

Lemma stays_open_r (path : string) : stays_in_directory (open_r path).
Proof. intros env w. unfold open_r. now destruct (files w _). Qed.

Lemma stays_open_w_write (path contents : string) :
  stays_in_directory (open_w_write path contents).
Proof. intros env w. now split. Qed.

Lemma stays_input (prompt : string) : stays_in_directory (input prompt).
Proof. intros env w. unfold input. now destruct (stdin w). Qed.

Lemma stays_for_each {A : Type} (xs : list A) (f : A -> M unit) :
  (forall x, stays_in_directory (f x)) -> stays_in_directory (for_each xs f).
Proof.
  intros Hf. induction xs as [|x xs IH]; simpl.
  - apply stays_ret.
  - apply stays_bind; [apply Hf | intros _; exact IH].
Qed.

Lemma stays_first_match (matches : list string) :
  stays_in_directory (first_match matches).
Proof. destruct matches; [apply stays_raise | apply stays_ret]. Qed.

Lemma stays_update_chart (path : string) (v : Version) :
  stays_in_directory (_update_chart path v).
Proof.
  unfold _update_chart. apply stays_bind; [apply stays_open_r|].
  intros chart. apply stays_open_w_write.
Qed.

Lemma stays_update_openapi (path : string) (v : Version) :
  stays_in_directory (_update_openapi path v).
Proof.
  unfold _update_openapi. apply stays_bind; [apply stays_open_r|].
  intros chart. apply stays_open_w_write.
Qed.

(** The calls of a [pushd] block are made in the directory entered. *)
Lemma pushd_made_in {A : Type} (directory : string) (body : M A) (env : Env)
    (w : World) :
  stays_in_directory body ->
  forallb (made_in (resolve (cwd w) directory))
    (snd (pushd directory body env w)) = true.
Proof.
  intros Hb. unfold pushd, bind, getcwd. unfold chdir at 1.
  destruct (is_dir env _ _); [|reflexivity].
  unfold try_finally.
  destruct (Hb env (mkWorld (resolve (cwd w) directory) (files w) (stdin w)))
    as [_ Ht].
  destruct (body env _) as [[rb wb] tb]. cbn [cwd snd] in Ht.
  destruct (chdir (cwd w) env wb) as [[rc wc] tc] eqn:E.
  apply chdir_calls in E as ->.
  destruct rc; simpl; rewrite forallb_app, Ht; reflexivity.
Qed.

End Staying.

Ltac staying_step :=
  first
    [ apply stays_for_each; intros ?
    | apply stays_first_match
    | apply stays_update_chart
    | apply stays_update_openapi
    | apply stays_ret
    | apply stays_raise
    | apply stays_print
    | apply stays_glob
    | apply stays_check_call
    | apply stays_check_output
    | apply stays_input
    | apply stays_bind; [|intros ?]
    | match goal with
      | |- stays_in_directory (if ?c then _ else _) => destruct c
      | |- stays_in_directory (match ?x with _ => _ end) => destruct x eqn:?
      end ].

Ltac staying := repeat staying_step.

Lemma ui_npm_update_stays : stays_in_directory ui_npm_update.
Proof. unfold ui_npm_update. staying. Qed.

(** X15. Every command a validation or a release runs, and every glob,
    is made in the component's own directory, in every world and
    whatever fails on the way.  The precommit hook, if any, is assumed
    to stay in the directory it is called in, as [ui_npm_update]
    does. *)
Theorem commands_run_in_component_directory (self : Component) (v : Version)
    (env : Env) (w : World) :
  (forall hook, precommit_hook self = Some hook -> stays_in_directory hook) ->
  forallb (made_in (resolve (cwd w) (name self))) (snd (validate self env w))
  = true
  /\ forallb (made_in (resolve (cwd w) (name self)))
       (snd (release self v env w)) = true.
Proof.
  intros Hhook. split.
  - unfold validate. unfold bind at 1. unfold print at 1, emit at 1.
    pose proof (pushd_made_in (name self)
                  (out <- check_output ["git"; "branch"; "--show-current"] ;;
                   let branch := Str.strip out in
                   if negb (String.eqb branch "main")
                   then raise (RuntimeError
                                 ("component " ++ name self
                                  ++ " is not checked out to main"))
                   else ret tt) env w) as H.
    destruct (pushd _ _ env w) as [[r w'] t]. cbn [snd] in *.
    apply H. staying.
  - unfold release. unfold bind at 1. unfold print at 1, emit at 1.
    match goal with
    | |- context [pushd ?d ?body env w] =>
        pose proof (pushd_made_in d body env w) as H;
        destruct (pushd d body env w) as [[r w'] t]
    end.
    cbn [snd] in *. apply H. staying. now apply Hhook.
Qed.

Lemma commands_run_in_component_directory_witness :
  forallb (made_in "/work/ui")
    (snd (release (mkComponent "ui" [] (Some ui_npm_update)) Sample.v1_2_3
            Sample.env_ok Sample.world)) = true.
Proof.
  apply (commands_run_in_component_directory
           (mkComponent "ui" [] (Some ui_npm_update)) Sample.v1_2_3
           Sample.env_ok Sample.world).
  intros hook [= <-]. exact ui_npm_update_stays.
Defined.

(* ===================================================================== *)
(** * Beyond the claims: what [main] runs *)
(* ===================================================================== *)

(** X16. With a step that is absent or names a component, and a
    version that the library accepts once its leading [v] is dropped,
    [main] adds nothing of its own: it is the run, validations first
    and releases after, over [components_from] of the step, with the
    parsed version. *)
Theorem main_runs_from_step (c : ascii) (rest : string) (step : option string)
    (v : Version) (env : Env) (w : World) :
  known_step step ->
  Semver.parse (if Ascii.eqb c "v" then rest else String c rest) = Some v ->
  main (Some (String c rest)) step env w
  = run (components_from step) v env w.
Proof.
  intros Hstep Hparse. unfold main. unfold bind at 1.
  rewrite (parse_args_known _ _ env w Hstep).
  unfold SemverNormalizeAction.
  replace ((if Ascii.eqb c "v" then ret rest else ret (String c rest)) env w)
    with (@ret string (if Ascii.eqb c "v" then rest else String c rest) env w)
    by now destruct (Ascii.eqb c "v").
  unfold ret at 1. unfold bind at 1. cbn [version from_step].
  unfold Version_parse. rewrite Hparse. unfold ret at 1.
  now destruct (run (components_from step) v env w) as [[r w'] t].
Qed.

Lemma main_runs_from_step_witness :
  known_step (Some "ui")
  /\ main (Some "v1.2.3") (Some "ui") Sample.env_ok Sample.world
     = run (components_from (Some "ui")) Sample.v1_2_3
         Sample.env_ok Sample.world.
Proof.
  assert (H : known_step (Some "ui")) by (simpl; tauto).
  split; [exact H|].
  apply (main_runs_from_step "v"%char "1.2.3" (Some "ui") Sample.v1_2_3
           Sample.env_ok Sample.world H).
  reflexivity.
Defined.
